(** * Plugin constants of the build: [packages/build/src/core/constants.ts]

    A shallow embedding of the constants resolution code together with the
    pieces of its runtime that decide its behaviour:

    - the POSIX flavour of Node's [path] module ([normalize], [join],
      [resolve], [relative]), described on the list of [/]-separated segments
      of a path; [process.cwd()] is an explicit argument [cwd], an absolute
      path on POSIX;
    - the [path-exists] package, over a file system whose access check may
      be fulfilled or rejected;
    - JavaScript objects used as records of constants: finite maps from
      constant names to values ([gmap string value]). What an object inherits
      from [Object.prototype], and the special name [__proto__], are not
      constant names and are left out.

    Strings are sequences of characters. An [async] function that cannot be
    rejected is a plain function; one that can returns a [result], whose
    [Throw] outcome is the exception raised or the rejection. The existence
    checks of one recomputation, issued together by [Promise.all], read one
    state [fs] of the file system. *)

From Stdlib Require Import Ascii String.
From stdpp Require Import gmap strings list fin_maps.

(** ** Characters and strings *)

Module Str.

Definition slash : ascii := "/"%char.

(** [s.startsWith(p)] *)
Definition startsWith (s p : string) : bool := String.prefix p s.

(** [s.charCodeAt(0) === CHAR_FORWARD_SLASH] *)
Definition headIsSlash (s : string) : bool :=
  match s with
  | String c _ => bool_decide (c = slash)
  | EmptyString => false
  end.

(** [s.charCodeAt(s.length - 1) === CHAR_FORWARD_SLASH] *)
Fixpoint lastIsSlash (s : string) : bool :=
  match s with
  | EmptyString => false
  | String c EmptyString => bool_decide (c = slash)
  | String _ s' => lastIsSlash s'
  end.

(** [s.split('/')]: never empty, [""] for the empty string. *)
Fixpoint split (s : string) : list string :=
  match s with
  | EmptyString => [""]
  | String c s' =>
      if decide (c = slash) then "" :: split s'
      else match split s' with
           | seg :: segs => String c seg :: segs
           | [] => [String c ""]
           end
  end.

(** [segs.join('/')] *)
Definition unsplit (segs : list string) : string := String.concat "/" segs.

(** No [/] inside the string. *)
Fixpoint slashFree (s : string) : bool :=
  match s with
  | EmptyString => true
  | String c s' => negb (bool_decide (c = slash)) && slashFree s'
  end.

End Str.

(** ** Node's [path] module, POSIX flavour *)

Module Path.

(** One turn of the segment loop of [normalizeString]: called at each
    separator (and at the end of the input) with the segment just read.
    [res] is the stack of kept segments, last one first. An empty segment
    and [.] are dropped; [..] removes the last kept segment unless there is
    none or it is itself [..], in which case [..] is kept when
    [allowAboveRoot]; any other segment is kept. *)
Definition normalizeSegment (allowAboveRoot : bool)
    (res : list string) (seg : string) : list string :=
  if decide (seg = "" ∨ seg = ".") then res
  else if decide (seg = "..") then
    match res with
    | lastSeg :: res' =>
        if decide (lastSeg = "..")
        then (if allowAboveRoot then ".." :: res else res)
        else res'
    | [] => if allowAboveRoot then [".."] else []
    end
  else seg :: res.

Definition normalizeSegments (allowAboveRoot : bool) (segs : list string)
  : list string :=
  rev (foldl (normalizeSegment allowAboveRoot) [] segs).

(** [normalizeString(path, allowAboveRoot, '/', isPosixPathSeparator)] *)
Definition normalizeString (path : string) (allowAboveRoot : bool) : string :=
  Str.unsplit (normalizeSegments allowAboveRoot (Str.split path)).

(** [path.isAbsolute] *)
Definition isAbsolute (path : string) : bool := Str.headIsSlash path.

(** [path.normalize] *)
Definition normalize (path : string) : string :=
  if decide (path = "") then "."
  else
    let isAbs := isAbsolute path in
    let trailingSeparator := Str.lastIsSlash path in
    let path' := normalizeString path (negb isAbs) in
    if decide (path' = "") then
      (if isAbs then "/" else if trailingSeparator then "./" else ".")
    else
      let path'' := if trailingSeparator then path' +:+ "/" else path' in
      if isAbs then "/" +:+ path'' else path''.

(** [path.join(...args)]: the non-empty arguments joined by [/], then
    normalized; [.] when there is none. *)
Definition join (args : list string) : string :=
  match filter (λ arg, arg ≠ "") args with
  | [] => "."
  | parts => normalize (Str.unsplit parts)
  end.

(** The loop of [path.resolve]: arguments are taken from the right, the
    current directory after the leftmost one, until an absolute one has
    been prepended; empty ones are skipped. *)
Fixpoint resolveLoop (paths : list string) (resolvedPath : string)
  : string * bool :=
  match paths with
  | [] => (resolvedPath, false)
  | path :: paths' =>
      if decide (path = "") then resolveLoop paths' resolvedPath
      else
        let resolvedPath' := path +:+ "/" +:+ resolvedPath in
        if isAbsolute path then (resolvedPath', true)
        else resolveLoop paths' resolvedPath'
  end.

(** [path.resolve(...args)], with [cwd] the value of [process.cwd()]. *)
Definition resolve (cwd : string) (args : list string) : string :=
  let '(resolvedPath, resolvedAbsolute) :=
    resolveLoop (rev args ++ [cwd]) "" in
  let resolvedPath' := normalizeString resolvedPath (negb resolvedAbsolute) in
  if resolvedAbsolute then "/" +:+ resolvedPath'
  else if decide (resolvedPath' = "") then "." else resolvedPath'.

(** The segments two resolved paths do not share, after their longest
    common run of leading segments. *)
Fixpoint dropCommon (fromSegs toSegs : list string)
  : list string * list string :=
  match fromSegs, toSegs with
  | f :: fromSegs', t :: toSegs' =>
      if decide (f = t) then dropCommon fromSegs' toSegs'
      else (fromSegs, toSegs)
  | _, _ => (fromSegs, toSegs)
  end.

(** The segments of a resolved path. *)
Definition segments (path : string) : list string :=
  filter (λ seg, seg ≠ "") (Str.split path).

(** [path.relative(from, to)]: both are resolved against [cwd]; the result
    is one [..] per segment of [from] below the longest common directory,
    followed by the segments of [to] below it; empty when they resolve to
    the same path. *)
Definition relative (cwd from to : string) : string :=
  if decide (from = to) then ""
  else
    let from' := resolve cwd [from] in
    let to' := resolve cwd [to] in
    if decide (from' = to') then ""
    else
      let '(fromRest, toRest) := dropCommon (segments from') (segments to') in
      Str.unsplit (((λ _, "..") <$> fromRest) ++ toRest).

End Path.

(** ** JavaScript values, objects and outcomes *)

(** The values a constants record holds: [undefined], a string or a boolean
    ([IS_LOCAL]). *)
Inductive value : Type :=
  | VUndefined
  | VString (s : string)
  | VBoolean (b : bool).

#[global] Instance value_eq_dec : EqDecision value.
Proof. solve_decision. Defined.

(** A string or [undefined], as a value. *)
Definition ofOption (o : option string) : value :=
  match o with
  | Some s => VString s
  | None => VUndefined
  end.

(** What a call produces: a value, or the [TypeError] raised when a [path]
    function is given an argument that is not a string. *)
Inductive error : Type := TypeError.

Inductive result (A : Type) : Type :=
  | Ok (a : A)
  | Throw (e : error).
Arguments Ok {A} a.
Arguments Throw {A} e.

#[global] Instance result_ret : MRet result := λ A a, Ok a.
#[global] Instance result_bind : MBind result := λ A B f r,
  match r with
  | Ok a => f a
  | Throw e => Throw e
  end.

Module Obj.

(** [o[key]]: [undefined] for a key the object does not have. *)
Definition get (o : gmap string value) (key : string) : value :=
  default VUndefined (o !! key).

(** [Object.assign(target, ...sources)]: each source in turn overrides
    what is there. *)
Definition assign (target : gmap string value)
    (sources : list (gmap string value)) : gmap string value :=
  foldl (λ acc source, source ∪ acc) target sources.

(** [mapObj(o, (key, v) => [key, mapper(key, v)])] of the [map-obj]
    package: a new object with the same keys; an exception of the mapper
    gets through. *)
Definition mapValues (o : gmap string value)
    (mapper : string → value → result value) : result (gmap string value) :=
  map_fold
    (λ key v acc, o' ← acc; v' ← mapper key v; mret (<[key := v']> o'))
    (mret ∅) o.

End Obj.

(** ** The file system and [path-exists] *)

(** The outcome of [fs.promises.access(path)]: fulfilled, or rejected with a
    code ([ENOENT], [EACCES], ...). *)
Inductive access : Type :=
  | AccessOk
  | AccessRejected (code : string).

(** [pathExists(path)] of the [path-exists] package: [true] when the access
    check is fulfilled, [false] when it is rejected, whatever the reason. *)
Definition pathExists (fs : string → access) (path : string) : bool :=
  match fs path with
  | AccessOk => true
  | AccessRejected _ => false
  end.

(** ** [constants.ts] *)

Record DefaultPath : Type := {
  constantName : string;
  defaultPath : string
}.

Record Build : Type := {
  publish : option string;
  edge_functions : option string
}.

Record NetlifyConfig : Type := {
  build : Build;
  functionsDirectory : option string
}.

Record SiteInfo : Type := { id : option string }.

(** The argument of [getConstants], as its callers supply it: the build
    directory and the two distribution directories are strings, and
    [siteInfo] and [netlifyConfig.build] are objects. A call that leaves
    one of them out is outside this type, and is what [Untyped.getConstants]
    below is for: [path.join] raises a [TypeError] on a missing build
    directory, and on a missing distribution directory in local mode, and
    destructuring raises one on a missing [siteInfo] or
    [netlifyConfig.build]. *)
Record Options : Type := {
  configPath : option string;
  buildDir : string;
  packagePath : option string;
  functionsDistDir : string;
  edgeFunctionsDistDir : string;
  cacheDir : option string;
  netlifyConfig : NetlifyConfig;
  siteInfo : SiteInfo;
  apiHost : option string;
  token : option string;
  mode : string
}.

Definition CONSTANT_PATHS : gset string :=
  {[ "CONFIG_PATH"; "PUBLISH_DIR"; "FUNCTIONS_SRC"; "FUNCTIONS_DIST";
     "INTERNAL_EDGE_FUNCTIONS_SRC"; "INTERNAL_FUNCTIONS_SRC";
     "EDGE_FUNCTIONS_DIST"; "EDGE_FUNCTIONS_SRC"; "CACHE_DIR" ]}.

Definition DEFAULT_PATHS : list DefaultPath :=
  [ {| constantName := "FUNCTIONS_SRC";
       defaultPath := "netlify-automatic-functions" |};
    {| constantName := "FUNCTIONS_SRC"; defaultPath := "netlify/functions" |};
    {| constantName := "EDGE_FUNCTIONS_SRC";
       defaultPath := "netlify/edge-functions" |} ].

Definition INTERNAL_EDGE_FUNCTIONS_SRC : string := ".netlify/edge-functions".
Definition INTERNAL_FUNCTIONS_SRC : string := ".netlify/functions-internal".

Definition isEmptyValue (path : value) : bool :=
  bool_decide (path = VUndefined) || bool_decide (path = VString "").

(** [packagePath || ''] *)
Definition orEmpty (o : option string) : string := default "" o.

Section Constants.

(** [process.cwd()], which [path.relative] resolves relative paths
    against. *)
Variable cwd : string.

(** The state of the file system during one recomputation. *)
Variable fs : string → access.

(** [getCacheDir({ cacheDir, cwd })] of [@netlify/cache-utils]. *)
Variable getCacheDir : option string → string → string.

(** [ROOT_PACKAGE_JSON.version] of [../utils/json.js]. *)
Variable ROOT_PACKAGE_JSON_version : string.

Definition normalizePath (path : value) (buildDir key : string)
  : result value :=
  if bool_decide (path = VUndefined) || bool_decide (path = VString "")
     || negb (bool_decide (key ∈ CONSTANT_PATHS))
  then Ok path
  else
    match path with
    | VString path =>
        let pathA := Path.normalize path in
        if decide (pathA = buildDir) then Ok (VString ".")
        else if Str.startsWith pathA buildDir
        then Ok (VString (Path.relative cwd buildDir pathA))
        else Ok (VString pathA)
    | _ => Throw TypeError
    end.

Definition normalizeConstantsPaths (constants : gmap string value)
    (buildDir : string) : result (gmap string value) :=
  Obj.mapValues constants (λ key path, normalizePath path buildDir key).

Definition addDefaultConstant (constants : gmap string value)
    (constantName defaultPath buildDir : string) : gmap string value :=
  if negb (isEmptyValue (Obj.get constants constantName))
     || negb (pathExists fs (buildDir +:+ "/" +:+ defaultPath))
  then ∅
  else {[ constantName := VString defaultPath ]}.

Definition addDefaultConstants (constants : gmap string value)
    (buildDir : string) : gmap string value :=
  let newConstants :=
    (λ rule, addDefaultConstant constants
               rule.(constantName) rule.(defaultPath) buildDir)
      <$> DEFAULT_PATHS in
  Obj.assign ∅ (constants :: newConstants).

(** The first statement of [addMutableConstants]: the record [constantsA],
    the base record overlaid with the three fields of the configuration. *)
Definition overlayConfig (constants : gmap string value)
    (netlifyConfig : NetlifyConfig) : gmap string value :=
  <["EDGE_FUNCTIONS_SRC" := ofOption netlifyConfig.(build).(edge_functions)]>
    (<["FUNCTIONS_SRC" := ofOption netlifyConfig.(functionsDirectory)]>
       (<["PUBLISH_DIR" := ofOption netlifyConfig.(build).(publish)]>
          constants)).

Definition addMutableConstants (constants : gmap string value)
    (buildDir : string) (netlifyConfig : NetlifyConfig)
  : result (gmap string value) :=
  let constantsA := overlayConfig constants netlifyConfig in
  let constantsB := addDefaultConstants constantsA buildDir in
  let constantsC := normalizeConstantsPaths constantsB buildDir in
  constantsC.

(** The object literal [constants] of [getConstants], before the
    recomputation pass. *)
Definition baseConstants (o : Options) : gmap string value :=
  let isLocal := bool_decide (o.(mode) ≠ "buildbot") in
  let normalizedCacheDir :=
    getCacheDir o.(cacheDir)
      (Path.join [o.(buildDir); orEmpty o.(packagePath)]) in
  list_to_map
    [ ("CONFIG_PATH", ofOption o.(configPath));
      ("PACKAGE_PATH", ofOption o.(packagePath));
      ("FUNCTIONS_DIST",
        VString (if negb isLocal then o.(functionsDistDir)
                 else Path.join [orEmpty o.(packagePath);
                                 o.(functionsDistDir)]));
      ("EDGE_FUNCTIONS_DIST",
        VString (if negb isLocal then o.(edgeFunctionsDistDir)
                 else Path.join [orEmpty o.(packagePath);
                                 o.(edgeFunctionsDistDir)]));
      ("CACHE_DIR", VString normalizedCacheDir);
      ("IS_LOCAL", VBoolean isLocal);
      ("NETLIFY_BUILD_VERSION", VString ROOT_PACKAGE_JSON_version);
      ("SITE_ID", ofOption o.(siteInfo).(id));
      ("NETLIFY_API_TOKEN", ofOption o.(token));
      ("NETLIFY_API_HOST", ofOption o.(apiHost));
      ("INTERNAL_FUNCTIONS_SRC",
        VString (Path.join [o.(buildDir); orEmpty o.(packagePath);
                            INTERNAL_FUNCTIONS_SRC]));
      ("INTERNAL_EDGE_FUNCTIONS_SRC",
        VString (Path.join [o.(buildDir); orEmpty o.(packagePath);
                            INTERNAL_EDGE_FUNCTIONS_SRC])) ].

Definition getConstants (o : Options) : result (gmap string value) :=
  addMutableConstants (baseConstants o) o.(buildDir) o.(netlifyConfig).

End Constants.

(** The keys of [NetlifyPluginConstants]. *)
Definition constantNames : gset string :=
  list_to_set
    [ "CONFIG_PATH"; "PUBLISH_DIR"; "FUNCTIONS_SRC"; "PACKAGE_PATH";
      "INTERNAL_EDGE_FUNCTIONS_SRC"; "INTERNAL_FUNCTIONS_SRC";
      "FUNCTIONS_DIST"; "EDGE_FUNCTIONS_DIST"; "EDGE_FUNCTIONS_SRC";
      "IS_LOCAL"; "NETLIFY_BUILD_VERSION"; "SITE_ID";
      "NETLIFY_API_TOKEN"; "NETLIFY_API_HOST"; "CACHE_DIR" ].

(** ** [getConstants] on arguments that may be missing

    [getConstants] declares no type for its argument, and
    [addMutableConstants] none for the configuration. The functions below
    are the same two functions on an argument whose properties are strings
    or objects where present but may be missing: destructuring a missing
    object, and passing a missing value to [path.join], raise a
    [TypeError]. *)

Module Untyped.

(** The configuration [addMutableConstants] works on once the pattern
    [{ build: { publish, edge_functions }, functionsDirectory }] has
    matched. *)
Definition destructured (build : Build) (functionsDirectory : option string)
  : NetlifyConfig :=
  {| build := build; functionsDirectory := functionsDirectory |}.

Record NetlifyConfig : Type := {
  build : option Build;
  functionsDirectory : option string
}.

Record Options : Type := {
  configPath : option string;
  buildDir : option string;
  packagePath : option string;
  functionsDistDir : option string;
  edgeFunctionsDistDir : option string;
  cacheDir : option string;
  netlifyConfig : option NetlifyConfig;
  siteInfo : option SiteInfo;
  apiHost : option string;
  token : option string;
  mode : option string
}.

(** A value that is destructured, or validated to be a string: a
    [TypeError] when it is missing. *)
Definition required {A : Type} (x : option A) : result A :=
  match x with
  | Some a => Ok a
  | None => Throw TypeError
  end.

(** [join(...paths)], which validates each of its arguments. *)
Definition join (paths : list (option string)) : result string :=
  paths ← mapM required paths; mret (Path.join paths).

Section Constants.

Variable cwd : string.
Variable fs : string → access.
Variable getCacheDir : option string → string → string.
Variable ROOT_PACKAGE_JSON_version : string.

Definition addMutableConstants (constants : gmap string value)
    (buildDir : string) (netlifyConfig : option NetlifyConfig)
  : result (gmap string value) :=
  config ← required netlifyConfig;
  configBuild ← required config.(build);
  addMutableConstants cwd fs constants buildDir
    (destructured configBuild config.(functionsDirectory)).

Definition getConstants (o : Options) : result (gmap string value) :=
  info ← required o.(siteInfo);
  let isLocal := bool_decide (o.(mode) ≠ Some "buildbot") in
  packageDir ← join [o.(buildDir); Some (orEmpty o.(packagePath))];
  let normalizedCacheDir := getCacheDir o.(cacheDir) packageDir in
  functionsDist ←
    (if negb isLocal then Ok (ofOption o.(functionsDistDir))
     else dir ← join [Some (orEmpty o.(packagePath)); o.(functionsDistDir)];
          mret (VString dir));
  edgeFunctionsDist ←
    (if negb isLocal then Ok (ofOption o.(edgeFunctionsDistDir))
     else dir ← join [Some (orEmpty o.(packagePath));
                      o.(edgeFunctionsDistDir)];
          mret (VString dir));
  internalFunctions ←
    join [o.(buildDir); Some (orEmpty o.(packagePath));
          Some INTERNAL_FUNCTIONS_SRC];
  internalEdgeFunctions ←
    join [o.(buildDir); Some (orEmpty o.(packagePath));
          Some INTERNAL_EDGE_FUNCTIONS_SRC];
  let constants : gmap string value :=
    list_to_map
      [ ("CONFIG_PATH", ofOption o.(configPath));
        ("PACKAGE_PATH", ofOption o.(packagePath));
        ("FUNCTIONS_DIST", functionsDist);
        ("EDGE_FUNCTIONS_DIST", edgeFunctionsDist);
        ("CACHE_DIR", VString normalizedCacheDir);
        ("IS_LOCAL", VBoolean isLocal);
        ("NETLIFY_BUILD_VERSION", VString ROOT_PACKAGE_JSON_version);
        ("SITE_ID", ofOption info.(id));
        ("NETLIFY_API_TOKEN", ofOption o.(token));
        ("NETLIFY_API_HOST", ofOption o.(apiHost));
        ("INTERNAL_FUNCTIONS_SRC", VString internalFunctions);
        ("INTERNAL_EDGE_FUNCTIONS_SRC", VString internalEdgeFunctions) ] in
  (* [join] has validated [buildDir] *)
  dir ← required o.(buildDir);
  addMutableConstants constants dir o.(netlifyConfig).

End Constants.

End Untyped.

(** The typed argument, as an argument none of whose properties is
    missing. *)
Definition untyped (o : Options) : Untyped.Options :=
  {| Untyped.configPath := o.(configPath);
     Untyped.buildDir := Some o.(buildDir);
     Untyped.packagePath := o.(packagePath);
     Untyped.functionsDistDir := Some o.(functionsDistDir);
     Untyped.edgeFunctionsDistDir := Some o.(edgeFunctionsDistDir);
     Untyped.cacheDir := o.(cacheDir);
     Untyped.netlifyConfig :=
       Some {| Untyped.build := Some o.(netlifyConfig).(build);
               Untyped.functionsDirectory :=
                 o.(netlifyConfig).(functionsDirectory) |};
     Untyped.siteInfo := Some o.(siteInfo);
     Untyped.apiHost := o.(apiHost);
     Untyped.token := o.(token);
     Untyped.mode := Some o.(mode) |}.

(** The argument supplies what [getConstants] destructures or joins:
    [siteInfo], [buildDir], [netlifyConfig.build] and, unless the mode is
    [buildbot], the two distribution directories. *)
Definition supplied (o : Untyped.Options) : bool :=
  bool_decide (is_Some o.(Untyped.siteInfo))
  && bool_decide (is_Some o.(Untyped.buildDir))
  && (bool_decide (o.(Untyped.mode) = Some "buildbot")
      || bool_decide (is_Some o.(Untyped.functionsDistDir))
         && bool_decide (is_Some o.(Untyped.edgeFunctionsDistDir)))
  && match o.(Untyped.netlifyConfig) with
     | Some config => bool_decide (is_Some config.(Untyped.build))
     | None => false
     end.

(** ** Shapes of segment lists *)

(** A segment [normalizeString] keeps as it is: a name. *)
Definition plain (seg : string) : Prop :=
  seg ≠ "" ∧ seg ≠ "." ∧ seg ≠ ".." ∧ Str.slashFree seg = true.

(** The stack of [normalizeString] (last segment first): names on top of
    [n] leading [..], which only appear when [allowAboveRoot]. *)
Definition stackOk (allowAboveRoot : bool) (res : list string) : Prop :=
  ∃ (n : nat) (names : list string),
    res = names ++ replicate n ".." ∧ Forall plain names
    ∧ (allowAboveRoot = false → n = 0).

(** A normalized list of segments, in path order. *)
Definition normalForm (allowAboveRoot : bool) (segs : list string) : Prop :=
  stackOk allowAboveRoot (rev segs).

(** What [path.normalize] returns for a path that is absolute or not
    ([isAbs]), ends with a separator or not ([trailing]), and whose kept
    segments are [segs]. *)
Definition render (isAbs trailing : bool) (segs : list string) : string :=
  match segs with
  | [] => if isAbs then "/" else if trailing then "./" else "."
  | _ =>
      Str.unsplit ((if isAbs then [""] else []) ++ segs
                   ++ (if trailing then [""] else []))
  end.

Definition isBoolean (v : value) : bool :=
  match v with
  | VBoolean _ => true
  | _ => false
  end.

(** No boolean sits under a path-bearing key: the record has the type
    [Partial<NetlifyPluginConstants>] that [normalizeConstantsPaths]
    declares. *)
Definition pathsAreStrings (constants : gmap string value) : Prop :=
  map_Forall (λ key v, isBoolean v = true → key ∉ CONSTANT_PATHS) constants.

#[global] Instance pathsAreStrings_dec (constants : gmap string value) :
  Decision (pathsAreStrings constants).
Proof. unfold pathsAreStrings. apply _. Defined.

(** The rules of [DEFAULT_PATHS] that target [key] and whose directory the
    access check finds under [buildDir], in declared order. *)
Definition candidates (fs : string → access) (buildDir key : string)
  : list DefaultPath :=
  filter (λ rule, rule.(constantName) = key
                  ∧ pathExists fs (buildDir +:+ "/" +:+ rule.(defaultPath))
                    = true)
    DEFAULT_PATHS.

(** What default detection leaves under [key] for a field that holds
    [live]: the path of the last existing candidate when the field is unset
    and there is one, the field itself otherwise. *)
Definition withDefault (fs : string → access) (buildDir key : string)
    (live : value) : value :=
  if isEmptyValue live then
    match last (candidates fs buildDir key) with
    | Some rule => VString rule.(defaultPath)
    | None => live
    end
  else live.

(** The path-segment reading of "resides under": the segments of the
    directory are the leading segments of the path. *)
Definition residesUnder (dir path : string) : Prop :=
  Path.segments dir `prefix_of` Path.segments path.

(** ** Sample inputs *)

(** A file system in which every access check is fulfilled. *)
Definition everythingExists : string → access := λ _, AccessOk.

(** A file system in which every access check is rejected: the first
    candidate directory cannot be read, the others do not exist. *)
Definition nothingAccessible : string → access := λ path,
  if decide (path = "/repo/netlify-automatic-functions")
  then AccessRejected "EACCES"
  else AccessRejected "ENOENT".

(** A configuration that sets none of the three directories. *)
Definition emptyConfig : NetlifyConfig :=
  {| build := {| publish := None; edge_functions := None |};
     functionsDirectory := None |}.

(** A configuration whose publish directory a plugin has changed. *)
Definition liveConfig : NetlifyConfig :=
  {| build := {| publish := Some "/repo/out"; edge_functions := None |};
     functionsDirectory := Some "/repo/src/functions" |}.

(** A base record whose directories were set by an earlier phase. *)
Definition earlierConstants : gmap string value :=
  {[ "IS_LOCAL" := VBoolean true;
     "PACKAGE_PATH" := VString "/repo/packages/site";
     "PUBLISH_DIR" := VString "/repo/dist";
     "FUNCTIONS_SRC" := VString "/repo/functions";
     "SITE_ID" := VString "";
     "CONFIG_PATH" := VUndefined ]}.

(** A stand-in for [getCacheDir]: the cache directory resolved under the
    directory it is given. *)
Definition resolveCacheDir (cacheDir : option string) (dir : string) : string :=
  Path.resolve "/" [dir; default ".netlify/cache" cacheDir].

(** A remote build whose distribution directory lies under the build
    directory. *)
Definition remoteOptions : Options :=
  {| configPath := None; buildDir := "/tmp"; packagePath := Some "pkg";
     functionsDistDir := "/tmp/dist"; edgeFunctionsDistDir := "/tmp/edge";
     cacheDir := None; netlifyConfig := emptyConfig;
     siteInfo := {| id := Some "site" |}; apiHost := None; token := None;
     mode := "buildbot" |}.

(** A local build that is not given the directory for built functions. *)
Definition withoutFunctionsDist : Untyped.Options :=
  {| Untyped.configPath := None; Untyped.buildDir := Some "/repo";
     Untyped.packagePath := None; Untyped.functionsDistDir := None;
     Untyped.edgeFunctionsDistDir := Some ".netlify/edge-functions-dist";
     Untyped.cacheDir := None;
     Untyped.netlifyConfig :=
       Some {| Untyped.build :=
                 Some {| publish := Some "/repo/dist";
                         edge_functions := None |};
               Untyped.functionsDirectory := None |};
     Untyped.siteInfo := Some {| id := Some "site" |};
     Untyped.apiHost := None; Untyped.token := None;
     Untyped.mode := Some "cli" |}.

(** A file system in which only the three candidate directories of [/repo]
    exist. *)
Definition onlyCandidates : string → access := λ path,
  if decide (path ∈ ["/repo/netlify-automatic-functions";
                     "/repo/netlify/functions";
                     "/repo/netlify/edge-functions"])
  then AccessOk else AccessRejected "ENOENT".

(** A local build of the package [packages/site] of [/opt/build/repo]. *)
Definition monorepoOptions : Options :=
  {| configPath := Some "/opt/build/repo/netlify.toml";
     buildDir := "/opt/build/repo"; packagePath := Some "packages/site";
     functionsDistDir := ".netlify/functions/";
     edgeFunctionsDistDir := ".netlify/edge-functions-dist/";
     cacheDir := None; netlifyConfig := emptyConfig;
     siteInfo := {| id := Some "site" |}; apiHost := None; token := None;
     mode := "require" |}.

(** ** Facts about strings *)

Module StrFacts.
Import Str.

Lemma str_app_cons (c : ascii) (s t : string) :
  String c s +:+ t = String c (s +:+ t).
Proof. done. Qed.

Lemma str_app_nil_r (s : string) : s +:+ "" = s.
Proof.
  induction s as [|c s IH]; [done |]. by rewrite str_app_cons, IH.
Qed.

Lemma str_app_assoc (s t u : string) : (s +:+ t) +:+ u = s +:+ (t +:+ u).
Proof.
  induction s as [|c s IH]; [done |]. by rewrite !str_app_cons, IH.
Qed.

Lemma split_nonempty (s : string) : split s ≠ [].
Proof.
  destruct s as [|c s]; simpl; [done |].
  case_decide; [done |]. by destruct (split s).
Qed.

Lemma split_app_slash (s t : string) :
  split (s +:+ String slash t) = split s ++ split t.
Proof.
  induction s as [|c s IH].
  - change ("" +:+ String slash t) with (String slash t).
    done.
  - rewrite str_app_cons. simpl. case_decide; [by rewrite IH |].
    rewrite IH. pose proof (split_nonempty s) as Hne.
    by destruct (split s).
Qed.

Lemma split_slashFree (s : string) : slashFree s = true → split s = [s].
Proof.
  induction s as [|c s IH]; simpl; [done |].
  intros [Hc Hs]%andb_prop. apply negb_true_iff, bool_decide_eq_false in Hc.
  rewrite decide_False by done. by rewrite IH.
Qed.

Lemma split_all_slashFree (s : string) :
  Forall (λ seg, slashFree seg = true) (split s).
Proof.
  induction s as [|c s IH]; simpl; [by repeat constructor |].
  case_decide; [by constructor |].
  pose proof (split_nonempty s) as Hne.
  destruct (split s) as [|seg segs]; [done |].
  inversion IH; subst. constructor; [|done].
  simpl. by rewrite bool_decide_eq_false_2 by done.
Qed.

Lemma unsplit_cons (x y : string) (l : list string) :
  unsplit (x :: y :: l) = x +:+ String slash (unsplit (y :: l)).
Proof. done. Qed.

Lemma split_unsplit (l : list string) :
  l ≠ [] → Forall (λ seg, slashFree seg = true) l → split (unsplit l) = l.
Proof.
  induction l as [|x [|y l] IH]; intros Hne Hall; [done | |].
  - inversion Hall; subst. by apply split_slashFree.
  - inversion Hall; subst. rewrite unsplit_cons, split_app_slash.
    rewrite IH by done. by rewrite split_slashFree.
Qed.

Lemma lastIsSlash_app_slash (s : string) : lastIsSlash (s +:+ "/") = true.
Proof.
  induction s as [|c s IH]; [done |].
  rewrite str_app_cons. destruct s as [|c' s]; [done |].
  rewrite str_app_cons in *. apply IH.
Qed.

Lemma lastIsSlash_elim (s : string) :
  lastIsSlash s = true → ∃ s', s = s' +:+ "/".
Proof.
  induction s as [|c s IH]; [done |].
  simpl. destruct s as [|c' s].
  - intros ->%bool_decide_eq_true. by exists "".
  - intros [s' ->]%IH. by exists (String c s').
Qed.

Lemma lastIsSlash_split (s : string) :
  lastIsSlash s = true → ∃ segs, split s = segs ++ [""].
Proof.
  intros [s' ->]%lastIsSlash_elim.
  exists (split s'). apply (split_app_slash s' "").
Qed.

Lemma lastIsSlash_unsplit (l : list string) :
  Forall (λ seg, seg ≠ "" ∧ slashFree seg = true) l →
  lastIsSlash (unsplit l) = false.
Proof.
  intros Hall. destruct (lastIsSlash (unsplit l)) eqn:E; [|done].
  destruct l as [|x l]; [done |].
  apply lastIsSlash_split in E as [segs E].
  rewrite split_unsplit in E;
    [|done|by eapply Forall_impl; [exact Hall | intros ? [_ ?]]].
  assert (Hin : "" ∈ x :: l) by (rewrite E; set_solver).
  rewrite Forall_forall in Hall. by destruct (Hall _ Hin).
Qed.

Lemma headIsSlash_unsplit (x : string) (l : list string) :
  x ≠ "" → slashFree x = true → headIsSlash (unsplit (x :: l)) = false.
Proof.
  intros Hx Hfree. destruct x as [|c x]; [done |].
  simpl in Hfree. apply andb_prop in Hfree as [Hc _].
  apply negb_true_iff in Hc. by destruct l.
Qed.

Lemma unsplit_empty (l : list string) :
  Forall (λ seg, seg ≠ "") l → unsplit l = "" → l = [].
Proof.
  destruct l as [|x l]; [done |]. intros Hall Heq. inversion Hall; subst.
  destruct x; [done |]. by destruct l.
Qed.

Lemma startsWith_head (s p : string) :
  startsWith s p = true → headIsSlash p = true → headIsSlash s = true.
Proof.
  unfold startsWith. destruct p as [|a p]; [done |].
  destruct s as [|b s]; [done |]. simpl.
  destruct (ascii_dec a b); [by subst | done].
Qed.

Lemma startsWith_refl (s : string) : startsWith s s = true.
Proof.
  unfold startsWith. induction s as [|c s IH]; [done |].
  simpl. by destruct (ascii_dec c c).
Qed.

End StrFacts.

(** ** Facts about [path] *)

Module PathFacts.
Import Str StrFacts Path.

Lemma plain_slashFree (seg : string) : plain seg → slashFree seg = true.
Proof. by intros (_ & _ & _ & ?). Qed.

Lemma normalizeSegment_skip (a : bool) (res : list string) :
  normalizeSegment a res "" = res.
Proof. done. Qed.

Lemma normalizeSegment_plain (a : bool) (res : list string) (seg : string) :
  plain seg → normalizeSegment a res seg = seg :: res.
Proof.
  intros (H1 & H2 & H3 & _). unfold normalizeSegment.
  rewrite decide_False by (by intros [?|?]). by rewrite decide_False.
Qed.

Lemma normalizeSegment_up (n : nat) :
  normalizeSegment true (replicate n "..") ".." = replicate (S n) "..".
Proof. by destruct n. Qed.

Lemma normalizeSegment_ok (a : bool) (res : list string) (seg : string) :
  slashFree seg = true → stackOk a res →
  stackOk a (normalizeSegment a res seg).
Proof.
  intros Hfree (n & names & -> & Hnames & Hn). unfold normalizeSegment.
  case_decide as H1; [by exists n, names |].
  case_decide as H2.
  - destruct names as [|x names].
    + destruct a.
      * exists (S n), []. by rewrite <- normalizeSegment_up.
      * rewrite (Hn eq_refl). by exists 0, [].
    + apply Forall_cons in Hnames as [(_ & _ & Hx & _) Hrest].
      simpl. rewrite decide_False by done. by exists n, names.
  - exists n, (seg :: names). repeat split; [|done].
    constructor; [|done]. repeat split; naive_solver.
Qed.

Lemma foldl_ok (a : bool) (segs res : list string) :
  Forall (λ seg, slashFree seg = true) segs → stackOk a res →
  stackOk a (foldl (normalizeSegment a) res segs).
Proof.
  revert res. induction segs as [|seg segs IH]; intros res Hall Hres; [done |].
  inversion Hall; subst. simpl. apply IH; [done |].
  by apply normalizeSegment_ok.
Qed.

Lemma stackOk_nil (a : bool) : stackOk a [].
Proof. by exists 0, []. Qed.

Lemma normalizeSegments_normalForm (a : bool) (segs : list string) :
  Forall (λ seg, slashFree seg = true) segs →
  normalForm a (normalizeSegments a segs).
Proof.
  intros Hall. unfold normalForm, normalizeSegments.
  rewrite rev_involutive. apply foldl_ok; [done | apply stackOk_nil].
Qed.

Lemma foldl_ups (n m : nat) :
  foldl (normalizeSegment true) (replicate m "..") (replicate n "..")
  = replicate (n + m) "..".
Proof.
  revert m. induction n as [|n IH]; intros m; [done |].
  simpl foldl. rewrite normalizeSegment_up, IH. f_equal. lia.
Qed.

Lemma foldl_names (a : bool) (names res : list string) :
  Forall plain names →
  foldl (normalizeSegment a) res names = rev names ++ res.
Proof.
  revert res. induction names as [|x names IH]; intros res Hall; [done |].
  inversion Hall; subst. simpl.
  rewrite normalizeSegment_plain, IH by done. by rewrite <- app_assoc.
Qed.

Lemma rev_replicate (n : nat) (x : string) :
  rev (replicate n x) = replicate n x.
Proof.
  induction n as [|n IH]; [done |]. simpl. rewrite IH.
  clear IH. induction n as [|n IH]; [done |]. simpl. by rewrite IH.
Qed.

Lemma normalForm_shape (a : bool) (segs : list string) :
  normalForm a segs →
  ∃ n names, segs = replicate n ".." ++ names ∧ Forall plain names
             ∧ (a = false → n = 0).
Proof.
  intros (n & names & Hrev & Hnames & Hn).
  exists n, (rev names). split; [|split; [|done]].
  - rewrite <- (rev_involutive segs), Hrev, rev_app_distr.
    by rewrite rev_replicate.
  - apply Forall_forall. intros x Hx%list_elem_of_In%in_rev%list_elem_of_In.
    rewrite Forall_forall in Hnames. by apply Hnames.
Qed.

Lemma normalForm_elems (a : bool) (segs : list string) :
  normalForm a segs →
  Forall (λ seg, seg ≠ "" ∧ slashFree seg = true) segs.
Proof.
  intros (n & names & -> & Hnames & _)%normalForm_shape.
  apply Forall_app. split.
  - apply Forall_forall. by intros x ->%elem_of_replicate_inv.
  - eapply Forall_impl; [done |]. by intros x (? & _ & _ & ?).
Qed.

Lemma normalizeSegments_fix (a : bool) (segs : list string) :
  normalForm a segs → normalizeSegments a segs = segs.
Proof.
  intros (n & names & -> & Hnames & Hn)%normalForm_shape.
  unfold normalizeSegments. rewrite foldl_app.
  assert (foldl (normalizeSegment a) [] (replicate n "..")
          = replicate n "..") as ->.
  { destruct a; [|by rewrite (Hn eq_refl)].
    change (@nil string) with (replicate 0 "..") at 1.
    rewrite foldl_ups. f_equal. lia. }
  rewrite foldl_names by done.
  by rewrite rev_app_distr, rev_involutive, rev_replicate.
Qed.

Lemma normalizeSegments_padded (a isAbs trailing : bool)
    (segs : list string) :
  normalizeSegments a ((if isAbs then [""] else []) ++ segs
                       ++ (if trailing then [""] else []))
  = normalizeSegments a segs.
Proof.
  unfold normalizeSegments. f_equal. rewrite !foldl_app.
  by destruct isAbs, trailing.
Qed.

Lemma unsplit_app_empty (segs : list string) :
  segs ≠ [] → unsplit (segs ++ [""]) = unsplit segs +:+ "/".
Proof.
  induction segs as [|x [|y segs] IH]; intros Hne; [done | |].
  - simpl. unfold unsplit. simpl. by rewrite str_app_nil_r.
  - change ((x :: y :: segs) ++ [""]) with (x :: y :: (segs ++ [""])).
    rewrite !unsplit_cons, str_app_assoc, str_app_cons.
    do 2 f_equal. by apply IH.
Qed.

Lemma lastIsSlash_unsplit_last (segs : list string) (x : string) :
  Forall (λ seg, slashFree seg = true) (segs ++ [x]) → x ≠ "" →
  lastIsSlash (unsplit (segs ++ [x])) = false.
Proof.
  intros Hall Hx. destruct (lastIsSlash _) eqn:E; [|done].
  apply lastIsSlash_split in E as [segs' E].
  rewrite split_unsplit in E by (by destruct segs || done).
  by apply app_inj_tail in E as [_ ->].
Qed.

Lemma normalize_nonempty (p : string) : normalize p ≠ "".
Proof.
  unfold normalize. case_decide; [done |].
  case_decide as Hst; [by destruct (isAbsolute p), (lastIsSlash p) |].
  destruct (isAbsolute p); [done |].
  destruct (lastIsSlash p); [|done].
  by destruct (normalizeString p _).
Qed.

Lemma normalize_render (p : string) :
  p ≠ "" →
  normalize p
  = render (isAbsolute p) (lastIsSlash p)
      (normalizeSegments (negb (isAbsolute p)) (split p)).
Proof.
  intros Hp. unfold normalize, normalizeString. rewrite decide_False by done.
  pose proof (normalizeSegments_normalForm (negb (isAbsolute p)) (split p)
                (split_all_slashFree p)) as Hnf%normalForm_elems.
  destruct (normalizeSegments _ _) as [|x st] eqn:Est.
  { by rewrite decide_True. }
  rewrite decide_False.
  2: { intros Hempty%unsplit_empty; [done |].
       eapply Forall_impl; [done |]. by intros ? [? _]. }
  unfold render.
  destruct (isAbsolute p), (lastIsSlash p).
  - change ([""] ++ (x :: st) ++ [""]) with ("" :: (x :: st) ++ [""]).
    change ((x :: st) ++ [""]) with (x :: (st ++ [""])).
    rewrite unsplit_cons.
    change (x :: (st ++ [""])) with ((x :: st) ++ [""]).
    by rewrite unsplit_app_empty.
  - rewrite app_nil_r. change ([""] ++ x :: st) with ("" :: x :: st).
    by rewrite unsplit_cons.
  - change ([] ++ (x :: st) ++ [""]) with ((x :: st) ++ [""]).
    by rewrite unsplit_app_empty.
  - change ([] ++ (x :: st) ++ []) with ((x :: st) ++ []).
    by rewrite app_nil_r.
Qed.

Lemma normalize_of_render (isAbs trailing : bool) (segs : list string) :
  normalForm (negb isAbs) segs →
  normalize (render isAbs trailing segs) = render isAbs trailing segs.
Proof.
  intros Hnf.
  destruct segs as [|x st]; [by destruct isAbs, trailing |].
  pose proof (normalForm_elems _ _ Hnf) as Helems.
  set (padded := (if isAbs then [""] else []) ++ (x :: st)
                 ++ (if trailing then [""] else [])).
  assert (Hfree : Forall (λ seg, slashFree seg = true) padded).
  { unfold padded. repeat apply Forall_app_2.
    - by destruct isAbs; repeat constructor.
    - eapply Forall_impl; [done |]. by intros ? [_ ?].
    - by destruct trailing; repeat constructor. }
  assert (Hpadded : padded ≠ []) by (unfold padded; by destruct isAbs).
  assert (Hx : x ≠ "" ∧ slashFree x = true)
    by (by apply Forall_cons in Helems as [? _]).
  change (render isAbs trailing (x :: st)) with (unsplit padded).
  assert (Hsplit : split (unsplit padded) = padded)
    by (by apply split_unsplit).
  assert (Hne : unsplit padded ≠ "").
  { intros Heq. rewrite Heq in Hsplit. unfold padded in Hsplit.
    destruct Hx as [Hx _]. destruct isAbs; simpl in Hsplit.
    - by destruct st.
    - by injection Hsplit as <-. }
  assert (Habs : isAbsolute (unsplit padded) = isAbs).
  { unfold padded. destruct isAbs.
    - change ([""] ++ (x :: st) ++ _) with ("" :: x :: (st ++
        (if trailing then [""] else []))).
      by rewrite unsplit_cons.
    - apply headIsSlash_unsplit; by destruct Hx. }
  assert (Htrail : lastIsSlash (unsplit padded) = trailing).
  { unfold padded. destruct trailing.
    - rewrite app_assoc, unsplit_app_empty by (by destruct isAbs).
      apply lastIsSlash_app_slash.
    - rewrite !app_nil_r.
      destruct (exists_last (l := x :: st)) as (l' & y & Hl); [done |].
      rewrite Hl in *. rewrite app_assoc.
      apply lastIsSlash_unsplit_last.
      + rewrite <- app_assoc. apply Forall_app_2.
        * by destruct isAbs; repeat constructor.
        * eapply Forall_impl; [exact Helems |]. by intros ? [_ ?].
      + apply Forall_app in Helems as [_ Hy].
        by apply Forall_cons in Hy as [[? _] _]. }
  rewrite normalize_render by done.
  rewrite Habs, Htrail, Hsplit. unfold padded.
  by rewrite normalizeSegments_padded, normalizeSegments_fix.
Qed.

(** [path.normalize] is idempotent. *)
Lemma normalize_idem (p : string) : normalize (normalize p) = normalize p.
Proof.
  destruct (decide (p = "")) as [-> | Hp]; [done |].
  rewrite (normalize_render p) by done. apply normalize_of_render.
  apply normalizeSegments_normalForm, split_all_slashFree.
Qed.

Lemma resolve_absolute (cwd p : string) :
  isAbsolute p = true →
  resolve cwd [p]
  = "/" +:+ unsplit (normalizeSegments false (split (p +:+ "/" +:+ ""))).
Proof.
  intros Habs. unfold resolve. simpl.
  rewrite decide_False by (by intros ->). by rewrite Habs.
Qed.

Lemma normalizeSegments_plain (segs : list string) :
  Forall (λ seg, slashFree seg = true) segs →
  Forall plain (normalizeSegments false segs).
Proof.
  intros Hall%(normalizeSegments_normalForm false).
  apply normalForm_shape in Hall as (n & names & -> & Hnames & Hn).
  by rewrite (Hn eq_refl).
Qed.

Lemma segments_resolved (names : list string) :
  Forall plain names → segments ("/" +:+ unsplit names) = names.
Proof.
  intros Hnames. unfold segments.
  change ("/" +:+ unsplit names) with ("" +:+ String slash (unsplit names)).
  rewrite split_app_slash.
  destruct names as [|x names]; [done |].
  rewrite split_unsplit;
    [|done|by eapply Forall_impl; [exact Hnames | apply plain_slashFree]].
  simpl. rewrite filter_cons_False by (by intros ?).
  apply Forall_cons in Hnames as [(Hx & _) Hnames].
  rewrite filter_cons_True by done. f_equal.
  induction Hnames as [|y rest (Hy & _) _ IH]; [done |].
  by rewrite filter_cons_True, IH.
Qed.

Lemma dropCommon_Forall (P : string → Prop) (fromSegs toSegs : list string) :
  Forall P fromSegs → Forall P toSegs →
  Forall P (dropCommon fromSegs toSegs).1
  ∧ Forall P (dropCommon fromSegs toSegs).2.
Proof.
  revert toSegs. induction fromSegs as [|f fromSegs IH];
    intros toSegs Hfrom Hto; [done |].
  destruct toSegs as [|t toSegs]; [done |].
  simpl. case_decide; [|done].
  apply IH; by eapply Forall_inv_tail.
Qed.

Lemma fmap_ups (segs : list string) :
  (λ _, "..") <$> segs = replicate (length segs) "..".
Proof.
  induction segs as [|x segs IH]; [done |]. rewrite fmap_cons, IH. done.
Qed.

Lemma normalForm_relative (fromRest toRest : list string) :
  Forall plain toRest →
  normalForm true (((λ _, "..") <$> fromRest) ++ toRest).
Proof.
  intros Hto. exists (length fromRest), (rev toRest).
  split; [|split; [|done]].
  - by rewrite rev_app_distr, fmap_ups, rev_replicate.
  - apply Forall_forall. intros x Hx%list_elem_of_In%in_rev%list_elem_of_In.
    rewrite Forall_forall in Hto. by apply Hto.
Qed.

(** Between two absolute paths, [path.relative] returns the empty string
    or a relative path that [path.normalize] leaves alone. *)
Lemma relative_absolute (cwd from to : string) :
  isAbsolute from = true → isAbsolute to = true →
  relative cwd from to = ""
  ∨ (isAbsolute (relative cwd from to) = false
     ∧ normalize (relative cwd from to) = relative cwd from to).
Proof.
  intros Hfrom Hto. unfold relative.
  case_decide; [by left |].
  rewrite !resolve_absolute by done.
  case_decide; [by left |].
  rewrite !segments_resolved
    by apply normalizeSegments_plain, split_all_slashFree.
  pose proof (dropCommon_Forall plain _ _
    (normalizeSegments_plain _ (split_all_slashFree (from +:+ "/" +:+ "")))
    (normalizeSegments_plain _ (split_all_slashFree (to +:+ "/" +:+ ""))))
    as [_ Hrest].
  destruct (dropCommon _ _) as [fromRest toRest]. simpl in Hrest.
  pose proof (normalForm_relative fromRest toRest Hrest) as Hnf.
  destruct (((λ _, "..") <$> fromRest) ++ toRest) as [|x segs] eqn:E;
    [by left | right].
  pose proof (normalForm_elems _ _ Hnf) as [[Hx Hfree] _]%Forall_cons.
  split; [by apply headIsSlash_unsplit |].
  pose proof (normalize_of_render false false (x :: segs) Hnf) as Hfix.
  unfold render in Hfix.
  change ([] ++ (x :: segs) ++ []) with ((x :: segs) ++ []) in Hfix.
  by rewrite app_nil_r in Hfix.
Qed.

(** The model on the examples of Node's documentation. *)
Example normalize_doc :
  normalize "/foo/bar//baz/asdf/quux/.." = "/foo/bar/baz/asdf".
Proof. by vm_compute. Qed.

Example join_doc :
  join ["/foo"; "bar"; "baz/asdf"; "quux"; ".."] = "/foo/bar/baz/asdf".
Proof. by vm_compute. Qed.

Example resolve_doc : resolve "/home" ["/foo/bar"; "./baz"] = "/foo/bar/baz".
Proof. by vm_compute. Qed.

Example resolve_cwd_doc :
  resolve "/home/myself/node" ["wwwroot"; "static_files/gif/image.gif"]
  = "/home/myself/node/wwwroot/static_files/gif/image.gif".
Proof. by vm_compute. Qed.

Example relative_doc :
  relative "/" "/data/orandea/test/aaa" "/data/orandea/impl/bbb"
  = "../../impl/bbb".
Proof. by vm_compute. Qed.

Example normalize_trailing : normalize "a/../b/./c/" = "b/c/".
Proof. by vm_compute. Qed.

Example normalize_above : normalize "a/../../b" = "../b".
Proof. by vm_compute. Qed.

Example normalize_root : normalize "/../.." = "/".
Proof. by vm_compute. Qed.

End PathFacts.

(** ** Facts about objects *)

Module ObjFacts.

Lemma mapValues_spec (o : gmap string value)
    (mapper : string → value → result value) :
  match Obj.mapValues o mapper with
  | Ok o' =>
      ∀ key, match o !! key with
             | Some v => ∃ v', mapper key v = Ok v' ∧ o' !! key = Some v'
             | None => o' !! key = None
             end
  | Throw e => ∃ key v, o !! key = Some v ∧ mapper key v = Throw e
  end.
Proof.
  unfold Obj.mapValues. apply (map_fold_weak_ind (λ r m,
    match r with
    | Ok o' =>
        ∀ key, match m !! key with
               | Some v => ∃ v', mapper key v = Ok v' ∧ o' !! key = Some v'
               | None => o' !! key = None
               end
    | Throw e => ∃ key v, m !! key = Some v ∧ mapper key v = Throw e
    end)).
  - intros key. by rewrite lookup_empty.
  - intros i x m r Hfresh IH. destruct r as [o' | e]; simpl.
    + destruct (mapper i x) as [v' | e] eqn:Hmap; simpl.
      * intros key. destruct (decide (i = key)) as [<- | Hne].
        -- rewrite !lookup_insert_eq. by exists v'.
        -- rewrite !lookup_insert_ne by done. apply IH.
      * exists i, x. by rewrite lookup_insert_eq.
    + destruct IH as (key & v & Hkey & Hthrow). exists key, v.
      split; [|done]. rewrite lookup_insert_ne; [done |].
      intros <-. by rewrite Hfresh in Hkey.
Qed.

Lemma mapValues_total (o : gmap string value)
    (mapper : string → value → result value) :
  (∀ key v, o !! key = Some v → ∃ v', mapper key v = Ok v') →
  ∃ o', Obj.mapValues o mapper = Ok o'
        ∧ ∀ key, match o !! key with
                 | Some v => ∃ v', mapper key v = Ok v' ∧ o' !! key = Some v'
                 | None => o' !! key = None
                 end.
Proof.
  intros Hdef. pose proof (mapValues_spec o mapper) as Hspec.
  destruct (Obj.mapValues o mapper) as [o' | e]; [by exists o' |].
  destruct Hspec as (key & v & Hkey & Hthrow).
  destruct (Hdef key v Hkey) as [v' Hv']. congruence.
Qed.

Lemma get_lookup (o1 o2 : gmap string value) (key : string) :
  o1 !! key = o2 !! key → Obj.get o1 key = Obj.get o2 key.
Proof. unfold Obj.get. by intros ->. Qed.

End ObjFacts.

(** ** Facts about the constants code *)

Module ConstantsFacts.
Import ObjFacts.

Section WithEnvironment.

Variable cwd : string.
Variable fs : string → access.

Lemma normalizePath_noop (path : value) (buildDir key : string) :
  path = VUndefined ∨ path = VString "" ∨ key ∉ CONSTANT_PATHS →
  normalizePath cwd path buildDir key = Ok path.
Proof.
  unfold normalizePath. intros [-> | [-> | Hkey]]; [done | done |].
  rewrite (bool_decide_eq_false_2 _ Hkey). simpl.
  by rewrite orb_true_r.
Qed.

Lemma normalizePath_string (p buildDir key : string) :
  p ≠ "" → key ∈ CONSTANT_PATHS →
  normalizePath cwd (VString p) buildDir key
  = Ok (VString
          (if decide (Path.normalize p = buildDir) then "."
           else if Str.startsWith (Path.normalize p) buildDir
                then Path.relative cwd buildDir (Path.normalize p)
                else Path.normalize p)).
Proof.
  intros Hp Hkey. unfold normalizePath.
  rewrite (bool_decide_eq_true_2 _ Hkey).
  rewrite (bool_decide_eq_false_2 (VString p = VString ""))
    by congruence.
  simpl. case_decide; [done |]. by destruct (Str.startsWith _ _).
Qed.

(** The three branches of [normalizePath] on a non-empty path under a
    path-bearing key. *)
Lemma normalizePath_branches (p buildDir key : string) :
  key ∈ CONSTANT_PATHS → p ≠ "" →
  (Path.normalize p = buildDir
   ∧ normalizePath cwd (VString p) buildDir key = Ok (VString "."))
  ∨ (Path.normalize p ≠ buildDir
     ∧ Str.startsWith (Path.normalize p) buildDir = true
     ∧ normalizePath cwd (VString p) buildDir key
       = Ok (VString (Path.relative cwd buildDir (Path.normalize p))))
  ∨ (Str.startsWith (Path.normalize p) buildDir = false
     ∧ normalizePath cwd (VString p) buildDir key
       = Ok (VString (Path.normalize p))).
Proof.
  intros Hkey Hp. rewrite normalizePath_string by done.
  destruct (decide (Path.normalize p = buildDir)) as [Heq | Hne];
    [by left |].
  destruct (Str.startsWith (Path.normalize p) buildDir) eqn:Hprefix;
    [by right; left | by right; right].
Qed.

Lemma normalizePath_defined (path : value) (buildDir key : string) :
  (isBoolean path = true → key ∉ CONSTANT_PATHS) →
  ∃ v, normalizePath cwd path buildDir key = Ok v.
Proof.
  intros Htyped.
  destruct (decide (key ∈ CONSTANT_PATHS)) as [Hkey | Hkey];
    [|exists path; apply normalizePath_noop; auto].
  destruct path as [|p|b].
  - exists VUndefined. apply normalizePath_noop. auto.
  - destruct (decide (p = "")) as [-> | Hp].
    + exists (VString ""). apply normalizePath_noop. auto.
    + eexists. by apply normalizePath_string.
  - by destruct (Htyped eq_refl).
Qed.

Lemma normalizeConstantsPaths_total (constants : gmap string value)
    (buildDir : string) :
  pathsAreStrings constants →
  ∃ constants',
    normalizeConstantsPaths cwd constants buildDir = Ok constants'
    ∧ ∀ key,
        match constants !! key with
        | Some v => ∃ v', normalizePath cwd v buildDir key = Ok v'
                          ∧ constants' !! key = Some v'
        | None => constants' !! key = None
        end.
Proof.
  intros Htyped. apply mapValues_total.
  intros key v Hkey. apply normalizePath_defined.
  by apply (Htyped key v).
Qed.

Lemma addDefaultConstant_lookup (constants : gmap string value)
    (name path buildDir key : string) :
  addDefaultConstant fs constants name path buildDir !! key
  = if decide (name = key
               ∧ isEmptyValue (Obj.get constants key) = true
               ∧ pathExists fs (buildDir +:+ "/" +:+ path) = true)
    then Some (VString path) else None.
Proof.
  unfold addDefaultConstant.
  destruct (decide (name = key)) as [<- | Hne].
  - destruct (isEmptyValue _), (pathExists _ _); simpl.
    + rewrite decide_True by done. by rewrite lookup_singleton_eq.
    + by rewrite decide_False by (by intros (_ & _ & ?)).
    + by rewrite decide_False by (by intros (_ & ? & _)).
    + by rewrite decide_False by (by intros (_ & ? & _)).
  - rewrite decide_False by (by intros (? & _)).
    destruct (_ || _); [done |]. by rewrite lookup_singleton_ne.
Qed.

Lemma assign_defaults (constants acc : gmap string value)
    (buildDir key : string) (rules : list DefaultPath) :
  Obj.assign acc
    ((λ rule, addDefaultConstant fs constants
                rule.(constantName) rule.(defaultPath) buildDir)
       <$> rules) !! key
  = match last (filter
                  (λ rule, rule.(constantName) = key
                           ∧ isEmptyValue (Obj.get constants key) = true
                           ∧ pathExists fs
                               (buildDir +:+ "/" +:+ rule.(defaultPath))
                             = true)
                  rules) with
    | Some rule => Some (VString rule.(defaultPath))
    | None => acc !! key
    end.
Proof.
  revert acc. induction rules as [|rule rules IH]; intros acc; [done |].
  rewrite fmap_cons. unfold Obj.assign in *. simpl foldl. rewrite IH.
  rewrite lookup_union, addDefaultConstant_lookup.
  destruct (decide (rule.(constantName) = key ∧ _ ∧ _)) as [Hd | Hd].
  - rewrite filter_cons_True by done.
    destruct (filter _ rules) as [|r rs]; [by destruct (acc !! key) |].
    rewrite last_cons_cons.
    destruct (last (r :: rs)) eqn:Hlast; [done |].
    by apply last_None in Hlast.
  - rewrite filter_cons_False by done.
    destruct (last _); [done |]. by destruct (acc !! key).
Qed.

Lemma addDefaultConstants_lookup (constants : gmap string value)
    (buildDir key : string) :
  addDefaultConstants fs constants buildDir !! key
  = if isEmptyValue (Obj.get constants key)
    then match last (candidates fs buildDir key) with
         | Some rule => Some (VString rule.(defaultPath))
         | None => constants !! key
         end
    else constants !! key.
Proof.
  unfold addDefaultConstants.
  change (Obj.assign ∅ (constants :: ?l))
    with (Obj.assign (constants ∪ ∅) l).
  rewrite assign_defaults, (right_id_L ∅ (∪)).
  destruct (isEmptyValue _) eqn:Hempty.
  - unfold candidates.
    rewrite (list_filter_iff _
      (λ rule, rule.(constantName) = key
               ∧ pathExists fs (buildDir +:+ "/" +:+ rule.(defaultPath))
                 = true)); [done |].
    intros rule. split; [by intros (? & _ & ?) | by intros [? ?]].
  - rewrite (list_filter_iff _ (λ _, False));
      [by induction DEFAULT_PATHS |].
    intros rule. split; [intros (_ & ? & _); congruence | done].
Qed.

Lemma not_path_key (key : string) :
  bool_decide (key ∈ CONSTANT_PATHS) = false → key ∉ CONSTANT_PATHS.
Proof. apply bool_decide_eq_false_1. Qed.

Lemma path_key (key : string) :
  bool_decide (key ∈ CONSTANT_PATHS) = true → key ∈ CONSTANT_PATHS.
Proof. apply bool_decide_eq_true_1. Qed.

Lemma isEmptyValue_true (v : value) :
  isEmptyValue v = true ↔ v = VUndefined ∨ v = VString "".
Proof.
  unfold isEmptyValue. rewrite orb_true_iff, !bool_decide_eq_true. done.
Qed.

Lemma pathsAreStrings_insert (constants : gmap string value)
    (key : string) (v : value) :
  isBoolean v = false → pathsAreStrings constants →
  pathsAreStrings (<[key := v]> constants).
Proof.
  intros Hv Htyped. apply map_Forall_insert_2; [congruence | done].
Qed.

Lemma isBoolean_ofOption (o : option string) :
  isBoolean (ofOption o) = false.
Proof. by destruct o. Qed.

Lemma pathsAreStrings_overlay (constants : gmap string value)
    (netlifyConfig : NetlifyConfig) :
  pathsAreStrings constants →
  pathsAreStrings (overlayConfig constants netlifyConfig).
Proof.
  intros Htyped. unfold overlayConfig.
  by repeat apply pathsAreStrings_insert; try apply isBoolean_ofOption.
Qed.

Lemma pathsAreStrings_defaults (constants : gmap string value)
    (buildDir : string) :
  pathsAreStrings constants →
  pathsAreStrings (addDefaultConstants fs constants buildDir).
Proof.
  intros Htyped key v Hkey Hbool.
  rewrite addDefaultConstants_lookup in Hkey.
  destruct (isEmptyValue _); [destruct (last _) |].
  - injection Hkey as <-. done.
  - by apply (Htyped key v).
  - by apply (Htyped key v).
Qed.

(** A constant that is unset after the overlay and has no candidate
    directory is the same after the recomputation, which ends well on a
    well-typed record. *)
Lemma addMutableConstants_unset (constants : gmap string value)
    (buildDir key : string) (netlifyConfig : NetlifyConfig) :
  pathsAreStrings constants →
  isEmptyValue (Obj.get (overlayConfig constants netlifyConfig) key)
  = true →
  candidates fs buildDir key = [] →
  ∃ constantsC,
    addMutableConstants cwd fs constants buildDir netlifyConfig
    = Ok constantsC
    ∧ constantsC !! key = overlayConfig constants netlifyConfig !! key.
Proof.
  intros Htyped Hempty Hnone. unfold addMutableConstants.
  destruct (normalizeConstantsPaths_total
              (addDefaultConstants fs
                 (overlayConfig constants netlifyConfig) buildDir)
              buildDir) as (constantsC & HC & Hkeys).
  { by apply pathsAreStrings_defaults, pathsAreStrings_overlay. }
  exists constantsC. split; [done |].
  specialize (Hkeys key).
  rewrite addDefaultConstants_lookup, Hempty, Hnone in Hkeys.
  unfold Obj.get in Hempty. simpl in Hkeys.
  destruct (overlayConfig constants netlifyConfig !! key) as [v|];
    [|done].
  destruct Hkeys as (v' & Hnorm & ->).
  rewrite normalizePath_noop in Hnorm; [congruence |].
  apply isEmptyValue_true in Hempty. tauto.
Qed.

(** What the recomputation returns under a key depends on the base record
    only through what the overlaid record holds under that key. *)
Lemma addMutableConstants_overlaid (constants1 constants2 : gmap string value)
    (buildDir key : string) (netlifyConfig : NetlifyConfig) :
  pathsAreStrings constants1 → pathsAreStrings constants2 →
  overlayConfig constants1 netlifyConfig !! key
  = overlayConfig constants2 netlifyConfig !! key →
  ∃ constantsC1 constantsC2,
    addMutableConstants cwd fs constants1 buildDir netlifyConfig
    = Ok constantsC1
    ∧ addMutableConstants cwd fs constants2 buildDir netlifyConfig
      = Ok constantsC2
    ∧ constantsC1 !! key = constantsC2 !! key.
Proof.
  intros Htyped1 Htyped2 Hsame. unfold addMutableConstants.
  destruct (normalizeConstantsPaths_total
              (addDefaultConstants fs
                 (overlayConfig constants1 netlifyConfig) buildDir)
              buildDir) as (constantsC1 & HC1 & Hkeys1);
    [by apply pathsAreStrings_defaults, pathsAreStrings_overlay |].
  destruct (normalizeConstantsPaths_total
              (addDefaultConstants fs
                 (overlayConfig constants2 netlifyConfig) buildDir)
              buildDir) as (constantsC2 & HC2 & Hkeys2);
    [by apply pathsAreStrings_defaults, pathsAreStrings_overlay |].
  exists constantsC1, constantsC2. repeat split; [done | done |].
  specialize (Hkeys1 key). specialize (Hkeys2 key).
  rewrite addDefaultConstants_lookup in Hkeys1, Hkeys2.
  rewrite (get_lookup _ _ _ Hsame), Hsame in Hkeys1.
  destruct (if isEmptyValue _ then _ else _) as [v|]; [|congruence].
  destruct Hkeys1 as (v1 & Hv1 & ->). destruct Hkeys2 as (v2 & Hv2 & ->).
  congruence.
Qed.

Lemma candidates_none (buildDir key : string) :
  (∀ rule, rule ∈ DEFAULT_PATHS → rule.(constantName) = key →
           fs (buildDir +:+ "/" +:+ rule.(defaultPath)) ≠ AccessOk) →
  candidates fs buildDir key = [].
Proof.
  intros Hrejected. unfold candidates.
  assert (Hall : Forall (λ rule, rule ∈ DEFAULT_PATHS) DEFAULT_PATHS)
    by (by apply Forall_forall).
  induction Hall as [|rule rules Hin _ IH]; [done |].
  rewrite filter_cons_False; [done |].
  intros [Hname Hexists]. apply (Hrejected rule Hin Hname).
  unfold pathExists in Hexists. by destruct (fs _).
Qed.

Lemma candidates_untargeted (buildDir key : string) :
  key ≠ "FUNCTIONS_SRC" → key ≠ "EDGE_FUNCTIONS_SRC" →
  candidates fs buildDir key = [].
Proof.
  intros H1 H2. unfold candidates, DEFAULT_PATHS.
  by rewrite !filter_cons_False by (by intros [? _]).
Qed.

Lemma addDefaultConstants_untargeted (constants : gmap string value)
    (buildDir key : string) :
  key ≠ "FUNCTIONS_SRC" → key ≠ "EDGE_FUNCTIONS_SRC" →
  addDefaultConstants fs constants buildDir !! key = constants !! key.
Proof.
  intros H1 H2. rewrite addDefaultConstants_lookup.
  rewrite candidates_untargeted by done. by destruct (isEmptyValue _).
Qed.

Lemma overlayConfig_other (constants : gmap string value)
    (netlifyConfig : NetlifyConfig) (key : string) :
  key ≠ "PUBLISH_DIR" → key ≠ "FUNCTIONS_SRC" →
  key ≠ "EDGE_FUNCTIONS_SRC" →
  overlayConfig constants netlifyConfig !! key = constants !! key.
Proof.
  intros H1 H2 H3. unfold overlayConfig.
  by rewrite !lookup_insert_ne.
Qed.

Variable getCacheDir : option string → string → string.
Variable version : string.

Lemma baseConstants_typed (o : Options) :
  pathsAreStrings (baseConstants getCacheDir version o).
Proof.
  unfold baseConstants. rewrite !list_to_map_cons.
  repeat first
    [ apply pathsAreStrings_insert;
      [first [apply isBoolean_ofOption | reflexivity] |]
    | apply map_Forall_insert_2;
      [intros _; apply not_path_key; vm_compute; reflexivity |] ].
  apply map_Forall_empty.
Qed.

(** A constant of the base record that neither the overlay nor a default
    rule touches comes out of [getConstants] normalized. *)
Lemma getConstants_field (o : Options) (key : string) (v : value) :
  key ≠ "PUBLISH_DIR" → key ≠ "FUNCTIONS_SRC" →
  key ≠ "EDGE_FUNCTIONS_SRC" →
  baseConstants getCacheDir version o !! key = Some v →
  ∃ constantsC v',
    getConstants cwd fs getCacheDir version o = Ok constantsC
    ∧ normalizePath cwd v o.(buildDir) key = Ok v'
    ∧ constantsC !! key = Some v'.
Proof.
  intros H1 H2 H3 Hbase. unfold getConstants, addMutableConstants.
  destruct (normalizeConstantsPaths_total
              (addDefaultConstants fs
                 (overlayConfig (baseConstants getCacheDir version o)
                    o.(netlifyConfig)) o.(buildDir)) o.(buildDir))
    as (constantsC & HC & Hkeys).
  { apply pathsAreStrings_defaults, pathsAreStrings_overlay,
      baseConstants_typed. }
  specialize (Hkeys key).
  rewrite addDefaultConstants_untargeted, overlayConfig_other, Hbase
    in Hkeys by done.
  destruct Hkeys as (v' & Hv' & Hlookup). by exists constantsC, v'.
Qed.

End WithEnvironment.

End ConstantsFacts.

(** ** Default detection *)

Import ObjFacts ConstantsFacts.

(** C1, as stated, fails: with [FUNCTIONS_SRC] unset and both
    [netlify-automatic-functions] and [netlify/functions] present under the
    build root, default detection assigns [netlify/functions], the later
    rule, not [netlify-automatic-functions]. *)
Lemma first_match_wins_counterexample :
  let constants : gmap string value := {[ "FUNCTIONS_SRC" := VUndefined ]} in
  isEmptyValue (Obj.get constants "FUNCTIONS_SRC") = true
  ∧ pathExists everythingExists
      ("/repo" +:+ "/" +:+ "netlify-automatic-functions") = true
  ∧ pathExists everythingExists ("/repo" +:+ "/" +:+ "netlify/functions")
    = true
  ∧ addDefaultConstants everythingExists constants "/repo" !! "FUNCTIONS_SRC"
    = Some (VString "netlify/functions")
  ∧ addDefaultConstants everythingExists constants "/repo" !! "FUNCTIONS_SRC"
    ≠ Some (VString "netlify-automatic-functions").
Proof. vm_compute. repeat split; congruence. Qed.

(** C1, amended: for an unset constant, the last rule in declared order
    whose candidate directory exists supplies the value; every rule is
    evaluated against the record as it was given, none is skipped because an
    earlier one matched, and without any existing candidate the constant is
    left as it was. *)
Theorem last_match_wins (fs : string → access)
    (constants : gmap string value) (buildDir key : string) :
  isEmptyValue (Obj.get constants key) = true →
  addDefaultConstants fs constants buildDir !! key
  = match last (candidates fs buildDir key) with
    | Some rule => Some (VString rule.(defaultPath))
    | None => constants !! key
    end.
Proof.
  intros Hempty. by rewrite addDefaultConstants_lookup, Hempty.
Qed.

Lemma last_match_wins_witness :
  isEmptyValue (Obj.get (∅ : gmap string value) "FUNCTIONS_SRC") = true
  ∧ addDefaultConstants everythingExists ∅ "/repo" !! "FUNCTIONS_SRC"
    = match last (candidates everythingExists "/repo" "FUNCTIONS_SRC") with
      | Some rule => Some (VString rule.(defaultPath))
      | None => (∅ : gmap string value) !! "FUNCTIONS_SRC"
      end.
Proof.
  split; [reflexivity |].
  apply (last_match_wins everythingExists ∅ "/repo" "FUNCTIONS_SRC").
  reflexivity.
Defined.

(** Whenever [netlify/functions] exists it is the value of an unset
    [FUNCTIONS_SRC], whether or not the legacy directory exists as well. *)
Lemma both_directories (fs : string → access)
    (constants : gmap string value) (buildDir : string) :
  isEmptyValue (Obj.get constants "FUNCTIONS_SRC") = true →
  pathExists fs (buildDir +:+ "/" +:+ "netlify/functions") = true →
  addDefaultConstants fs constants buildDir !! "FUNCTIONS_SRC"
  = Some (VString "netlify/functions").
Proof.
  intros Hempty Hnew. rewrite addDefaultConstants_lookup, Hempty.
  unfold candidates, DEFAULT_PATHS.
  rewrite filter_cons. destruct (decide _); simpl.
  - rewrite filter_cons_True by done. rewrite filter_cons_False; [done |].
    by intros [? _].
  - rewrite filter_cons_True by done. rewrite filter_cons_False; [done |].
    by intros [? _].
Qed.

(** The legacy directory is the value only when [netlify/functions] does
    not exist. *)
Lemma legacy_directory_only (fs : string → access)
    (constants : gmap string value) (buildDir : string) :
  isEmptyValue (Obj.get constants "FUNCTIONS_SRC") = true →
  pathExists fs (buildDir +:+ "/" +:+ "netlify/functions") = false →
  pathExists fs (buildDir +:+ "/" +:+ "netlify-automatic-functions") = true →
  addDefaultConstants fs constants buildDir !! "FUNCTIONS_SRC"
  = Some (VString "netlify-automatic-functions").
Proof.
  intros Hempty Hnew Hlegacy. rewrite addDefaultConstants_lookup, Hempty.
  unfold candidates, DEFAULT_PATHS.
  rewrite filter_cons_True by done.
  rewrite filter_cons_False by (intros [_ ?]; simpl in *; congruence).
  rewrite filter_cons_False; [done |]. by intros [? _].
Qed.

(** C3: default detection leaves every constant that is not unset as it
    is, whatever the file system holds; a non-empty string in particular.
    Read the other way round: a constant that default detection changes was
    [undefined] or the empty string. *)
Theorem explicit_value_kept (fs : string → access)
    (constants : gmap string value) (buildDir key : string) :
  isEmptyValue (Obj.get constants key) = false →
  addDefaultConstants fs constants buildDir !! key = constants !! key.
Proof.
  intros Hset. by rewrite addDefaultConstants_lookup, Hset.
Qed.

Lemma explicit_value_kept_witness :
  let constants : gmap string value :=
    {[ "FUNCTIONS_SRC" := VString "src/functions" ]} in
  isEmptyValue (Obj.get constants "FUNCTIONS_SRC") = false
  ∧ addDefaultConstants everythingExists constants "/repo" !! "FUNCTIONS_SRC"
    = constants !! "FUNCTIONS_SRC".
Proof.
  split; [reflexivity |].
  apply (explicit_value_kept everythingExists
           {[ "FUNCTIONS_SRC" := VString "src/functions" ]} "/repo"
           "FUNCTIONS_SRC").
  reflexivity.
Defined.

(** C7: a constant that is unset once the configuration has been overlaid,
    and all of whose candidate directories fail the access check (absent, or
    rejected for any other reason), is still unset after the recomputation,
    which returns a record and raises nothing. *)
Theorem unset_stays_unset (cwd : string) (fs : string → access)
    (constants : gmap string value) (buildDir key : string)
    (netlifyConfig : NetlifyConfig) :
  pathsAreStrings constants →
  isEmptyValue (Obj.get (overlayConfig constants netlifyConfig) key) = true →
  (∀ rule, rule ∈ DEFAULT_PATHS → rule.(constantName) = key →
           fs (buildDir +:+ "/" +:+ rule.(defaultPath)) ≠ AccessOk) →
  ∃ constantsC,
    addMutableConstants cwd fs constants buildDir netlifyConfig
    = Ok constantsC
    ∧ constantsC !! key = overlayConfig constants netlifyConfig !! key
    ∧ isEmptyValue (Obj.get constantsC key) = true.
Proof.
  intros Htyped Hempty Hrejected.
  destruct (addMutableConstants_unset cwd fs constants buildDir key
              netlifyConfig Htyped Hempty
              (candidates_none fs buildDir key Hrejected))
    as (constantsC & HC & Hkey).
  exists constantsC. repeat split; [done | done |].
  by rewrite (get_lookup _ _ _ Hkey).
Qed.

Lemma earlierConstants_typed : pathsAreStrings earlierConstants.
Proof. apply (bool_decide_unpack _). vm_compute. exact I. Defined.

Lemma unset_stays_unset_witness :
  pathsAreStrings earlierConstants
  ∧ isEmptyValue
      (Obj.get (overlayConfig earlierConstants emptyConfig) "FUNCTIONS_SRC")
    = true
  ∧ (∀ rule, rule ∈ DEFAULT_PATHS → rule.(constantName) = "FUNCTIONS_SRC" →
             nothingAccessible ("/repo" +:+ "/" +:+ rule.(defaultPath))
             ≠ AccessOk)
  ∧ ∃ constantsC,
      addMutableConstants "/repo" nothingAccessible earlierConstants "/repo"
        emptyConfig = Ok constantsC
      ∧ constantsC !! "FUNCTIONS_SRC"
        = overlayConfig earlierConstants emptyConfig !! "FUNCTIONS_SRC"
      ∧ isEmptyValue (Obj.get constantsC "FUNCTIONS_SRC") = true.
Proof.
  assert (Hrejected : ∀ rule, rule ∈ DEFAULT_PATHS →
            rule.(constantName) = "FUNCTIONS_SRC" →
            nothingAccessible ("/repo" +:+ "/" +:+ rule.(defaultPath))
            ≠ AccessOk).
  { intros rule _ _. unfold nothingAccessible. by case_decide. }
  split; [exact earlierConstants_typed |].
  split; [reflexivity |].
  split; [exact Hrejected |].
  apply (unset_stays_unset "/repo" nothingAccessible earlierConstants "/repo"
           "FUNCTIONS_SRC" emptyConfig earlierConstants_typed eq_refl
           Hrejected).
Defined.

(** ** Normalization of the record *)

(** C8: normalizing a well-typed record returns a record in which every
    field under a key outside [CONSTANT_PATHS], and every field that is
    [undefined] or the empty string under any key, is what it was;
    [IS_LOCAL], [SITE_ID], [NETLIFY_BUILD_VERSION], [NETLIFY_API_TOKEN] and
    [NETLIFY_API_HOST] are such keys. *)
Theorem normalization_noop (cwd : string) (constants : gmap string value)
    (buildDir : string) :
  pathsAreStrings constants →
  (∀ key, key ∈ ["IS_LOCAL"; "SITE_ID"; "NETLIFY_BUILD_VERSION";
                 "NETLIFY_API_TOKEN"; "NETLIFY_API_HOST"] →
          key ∉ CONSTANT_PATHS)
  ∧ ∃ constants',
      normalizeConstantsPaths cwd constants buildDir = Ok constants'
      ∧ ∀ key,
          key ∉ CONSTANT_PATHS
          ∨ constants !! key = Some VUndefined
          ∨ constants !! key = Some (VString "") →
          constants' !! key = constants !! key.
Proof.
  intros Htyped. split.
  { intros key Hkey.
    repeat (apply elem_of_cons in Hkey as [-> | Hkey];
            [apply not_path_key; vm_compute; reflexivity |]).
    by apply elem_of_nil in Hkey. }
  destruct (normalizeConstantsPaths_total cwd constants buildDir Htyped)
    as (constants' & Hnorm & Hkeys).
  exists constants'. split; [done |].
  intros key Hcase. specialize (Hkeys key).
  destruct (constants !! key) as [v|] eqn:Hv; [|done].
  destruct Hkeys as (v' & Hv' & ->).
  rewrite normalizePath_noop in Hv'; [congruence |].
  destruct Hcase as [? | [? | ?]]; [tauto | left | right; left]; congruence.
Qed.

Lemma normalization_noop_witness :
  pathsAreStrings earlierConstants
  ∧ (∀ key, key ∈ ["IS_LOCAL"; "SITE_ID"; "NETLIFY_BUILD_VERSION";
                   "NETLIFY_API_TOKEN"; "NETLIFY_API_HOST"] →
            key ∉ CONSTANT_PATHS)
  ∧ ∃ constants',
      normalizeConstantsPaths "/repo" earlierConstants "/repo" = Ok constants'
      ∧ ∀ key,
          key ∉ CONSTANT_PATHS
          ∨ earlierConstants !! key = Some VUndefined
          ∨ earlierConstants !! key = Some (VString "") →
          constants' !! key = earlierConstants !! key.
Proof.
  split; [exact earlierConstants_typed |].
  apply (normalization_noop "/repo" earlierConstants "/repo"
           earlierConstants_typed).
Defined.

(** C9: [PACKAGE_PATH] is not a member of [CONSTANT_PATHS], and normalizing
    a well-typed record returns a record whose [PACKAGE_PATH] is the one
    supplied. *)
Theorem package_path_not_normalized (cwd : string)
    (constants : gmap string value) (buildDir : string) :
  pathsAreStrings constants →
  ("PACKAGE_PATH" ∉ CONSTANT_PATHS)
  ∧ ∃ constants',
      normalizeConstantsPaths cwd constants buildDir = Ok constants'
      ∧ constants' !! "PACKAGE_PATH" = constants !! "PACKAGE_PATH".
Proof.
  intros Htyped.
  assert (Hkey : "PACKAGE_PATH" ∉ CONSTANT_PATHS)
    by (apply not_path_key; vm_compute; reflexivity).
  split; [done |].
  destruct (normalizeConstantsPaths_total cwd constants buildDir Htyped)
    as (constants' & Hnorm & Hkeys).
  exists constants'. split; [done |].
  specialize (Hkeys "PACKAGE_PATH").
  destruct (constants !! "PACKAGE_PATH") as [v|]; [|done].
  destruct Hkeys as (v' & Hv' & ->).
  rewrite normalizePath_noop in Hv' by auto. congruence.
Qed.

Lemma package_path_not_normalized_witness :
  pathsAreStrings earlierConstants
  ∧ ("PACKAGE_PATH" ∉ CONSTANT_PATHS)
  ∧ ∃ constants',
      normalizeConstantsPaths "/repo" earlierConstants "/repo" = Ok constants'
      ∧ constants' !! "PACKAGE_PATH" = earlierConstants !! "PACKAGE_PATH".
Proof.
  split; [exact earlierConstants_typed |].
  apply (package_path_not_normalized "/repo" earlierConstants "/repo"
           earlierConstants_typed).
Defined.

(** ** The recomputation *)

(** C10: the overlay replaces [PUBLISH_DIR], [FUNCTIONS_SRC] and
    [EDGE_FUNCTIONS_SRC] of the base record by [build.publish],
    [functionsDirectory] and [build.edge_functions] of the configuration,
    whatever the base record held. The record the recomputation returns
    holds, under [PUBLISH_DIR], the normalized [build.publish], and under
    [FUNCTIONS_SRC] and [EDGE_FUNCTIONS_SRC] the normalized
    [functionsDirectory] and [build.edge_functions], or the normalized
    detected default where these are unset and a candidate directory
    exists. In particular [PUBLISH_DIR] is [undefined] when [build.publish]
    is, and [FUNCTIONS_SRC] and [EDGE_FUNCTIONS_SRC] are [undefined] when
    their field is and no candidate directory of theirs exists; and any
    other base record gives the same three constants. *)
Theorem overlay_unconditional (cwd : string) (fs : string → access)
    (constants : gmap string value) (buildDir : string)
    (netlifyConfig : NetlifyConfig) :
  pathsAreStrings constants →
  overlayConfig constants netlifyConfig !! "PUBLISH_DIR"
  = Some (ofOption netlifyConfig.(build).(publish))
  ∧ overlayConfig constants netlifyConfig !! "FUNCTIONS_SRC"
    = Some (ofOption netlifyConfig.(functionsDirectory))
  ∧ overlayConfig constants netlifyConfig !! "EDGE_FUNCTIONS_SRC"
    = Some (ofOption netlifyConfig.(build).(edge_functions))
  ∧ ∃ constantsC,
      addMutableConstants cwd fs constants buildDir netlifyConfig
      = Ok constantsC
      ∧ (∃ v, normalizePath cwd (ofOption netlifyConfig.(build).(publish))
                buildDir "PUBLISH_DIR" = Ok v
              ∧ constantsC !! "PUBLISH_DIR" = Some v)
      ∧ (∃ v, normalizePath cwd
                (withDefault fs buildDir "FUNCTIONS_SRC"
                   (ofOption netlifyConfig.(functionsDirectory)))
                buildDir "FUNCTIONS_SRC" = Ok v
              ∧ constantsC !! "FUNCTIONS_SRC" = Some v)
      ∧ (∃ v, normalizePath cwd
                (withDefault fs buildDir "EDGE_FUNCTIONS_SRC"
                   (ofOption netlifyConfig.(build).(edge_functions)))
                buildDir "EDGE_FUNCTIONS_SRC" = Ok v
              ∧ constantsC !! "EDGE_FUNCTIONS_SRC" = Some v)
      ∧ (netlifyConfig.(build).(publish) = None →
         constantsC !! "PUBLISH_DIR" = Some VUndefined)
      ∧ (netlifyConfig.(functionsDirectory) = None →
         candidates fs buildDir "FUNCTIONS_SRC" = [] →
         constantsC !! "FUNCTIONS_SRC" = Some VUndefined)
      ∧ (netlifyConfig.(build).(edge_functions) = None →
         candidates fs buildDir "EDGE_FUNCTIONS_SRC" = [] →
         constantsC !! "EDGE_FUNCTIONS_SRC" = Some VUndefined)
      ∧ (∀ constants',
           pathsAreStrings constants' →
           ∃ constantsC',
             addMutableConstants cwd fs constants' buildDir netlifyConfig
             = Ok constantsC'
             ∧ constantsC' !! "PUBLISH_DIR" = constantsC !! "PUBLISH_DIR"
             ∧ constantsC' !! "FUNCTIONS_SRC" = constantsC !! "FUNCTIONS_SRC"
             ∧ constantsC' !! "EDGE_FUNCTIONS_SRC"
               = constantsC !! "EDGE_FUNCTIONS_SRC").
Proof.
  intros Htyped.
  assert (Hpublish : ∀ base, overlayConfig base netlifyConfig !! "PUBLISH_DIR"
                     = Some (ofOption netlifyConfig.(build).(publish))).
  { intros base. unfold overlayConfig.
    by rewrite !lookup_insert_ne, lookup_insert_eq by done. }
  assert (Hfunctions :
            ∀ base, overlayConfig base netlifyConfig !! "FUNCTIONS_SRC"
            = Some (ofOption netlifyConfig.(functionsDirectory))).
  { intros base. unfold overlayConfig.
    by rewrite lookup_insert_ne, lookup_insert_eq by done. }
  assert (Hedge :
            ∀ base, overlayConfig base netlifyConfig !! "EDGE_FUNCTIONS_SRC"
            = Some (ofOption netlifyConfig.(build).(edge_functions))).
  { intros base. unfold overlayConfig. by rewrite lookup_insert_eq. }
  repeat (split; [done |]).
  destruct (normalizeConstantsPaths_total cwd
              (addDefaultConstants fs (overlayConfig constants netlifyConfig)
                 buildDir) buildDir) as (constantsC & HC & Hkeys).
  { by apply pathsAreStrings_defaults, pathsAreStrings_overlay. }
  exists constantsC. split; [done |].
  assert (Hlive : ∀ key live,
            overlayConfig constants netlifyConfig !! key = Some live →
            ∃ v, normalizePath cwd (withDefault fs buildDir key live)
                   buildDir key = Ok v
                 ∧ constantsC !! key = Some v).
  { intros key live Hkey. specialize (Hkeys key).
    rewrite addDefaultConstants_lookup in Hkeys.
    unfold Obj.get in Hkeys. rewrite Hkey in Hkeys. simpl in Hkeys.
    unfold withDefault.
    destruct (isEmptyValue live); [|done].
    by destruct (last (candidates fs buildDir key)). }
  assert (Hunset : ∀ key,
            overlayConfig constants netlifyConfig !! key = Some VUndefined →
            candidates fs buildDir key = [] →
            constantsC !! key = Some VUndefined).
  { intros key Hkey Hnone.
    destruct (addMutableConstants_unset cwd fs constants buildDir key
                netlifyConfig Htyped) as (constantsC' & HC' & Hsame);
      [by unfold Obj.get; rewrite Hkey | done |].
    unfold addMutableConstants in HC'. congruence. }
  split; [|split; [|split; [|split; [|split; [|split]]]]].
  - destruct (Hlive "PUBLISH_DIR" _ (Hpublish constants)) as (v & Hv & Hlookup).
    exists v. split; [|done].
    unfold withDefault in Hv.
    rewrite candidates_untargeted in Hv by done.
    by destruct (isEmptyValue _).
  - apply Hlive, Hfunctions.
  - apply Hlive, Hedge.
  - intros Hnone. apply Hunset; [by rewrite Hpublish, Hnone |].
    by apply candidates_untargeted.
  - intros Hnone. apply Hunset. by rewrite Hfunctions, Hnone.
  - intros Hnone. apply Hunset. by rewrite Hedge, Hnone.
  - intros constants' Htyped'.
    assert (Hkey : ∀ key,
              overlayConfig constants' netlifyConfig !! key
              = overlayConfig constants netlifyConfig !! key →
              ∃ constantsC',
                addMutableConstants cwd fs constants' buildDir netlifyConfig
                = Ok constantsC'
                ∧ constantsC' !! key = constantsC !! key).
    { intros key Hsame.
      destruct (addMutableConstants_overlaid cwd fs constants' constants
                  buildDir key netlifyConfig Htyped' Htyped Hsame)
        as (c1 & c2 & H1 & H2 & H12).
      exists c1. split; [done |].
      unfold addMutableConstants in H2. congruence. }
    destruct (Hkey "PUBLISH_DIR") as (c & Hc & Hp);
      [by rewrite !Hpublish |].
    destruct (Hkey "FUNCTIONS_SRC") as (c' & Hc' & Hf);
      [by rewrite !Hfunctions |].
    destruct (Hkey "EDGE_FUNCTIONS_SRC") as (c'' & Hc'' & He);
      [by rewrite !Hedge |].
    exists c. repeat split; [done | done | |]; congruence.
Qed.

Lemma overlay_unconditional_witness :
  pathsAreStrings earlierConstants
  ∧ ∃ constantsC,
      addMutableConstants "/repo" nothingAccessible earlierConstants "/repo"
        liveConfig = Ok constantsC
      ∧ constantsC !! "PUBLISH_DIR" = Some (VString "out")
      ∧ constantsC !! "FUNCTIONS_SRC" = Some (VString "src/functions")
      ∧ constantsC !! "EDGE_FUNCTIONS_SRC" = Some VUndefined.
Proof.
  split; [exact earlierConstants_typed |].
  destruct (overlay_unconditional "/repo" nothingAccessible earlierConstants
              "/repo" liveConfig earlierConstants_typed)
    as (_ & _ & _ & constantsC & HC & (vP & HvP & HP) & (vF & HvF & HF)
        & _ & _ & _ & Hedge & _).
  exists constantsC. split; [exact HC |].
  vm_compute in HvP. injection HvP as <-.
  vm_compute in HvF. injection HvF as <-.
  split; [exact HP |]. split; [exact HF |].
  exact (Hedge eq_refl eq_refl).
Defined.

(** ** The distribution directories *)

(** C4, as stated, fails: in remote mode [getConstants] does not return the
    distribution directory it was given when that directory lies under the
    build directory; [/tmp/dist] comes back as [dist]. *)
Lemma passthrough_counterexample :
  remoteOptions.(mode) = "buildbot"
  ∧ ∃ constantsC,
      getConstants "/tmp" nothingAccessible resolveCacheDir "1.0.0"
        remoteOptions = Ok constantsC
      ∧ constantsC !! "FUNCTIONS_DIST" = Some (VString "dist")
      ∧ constantsC !! "FUNCTIONS_DIST"
        ≠ Some (VString remoteOptions.(functionsDistDir)).
Proof.
  split; [reflexivity |].
  destruct (getConstants_field "/tmp" nothingAccessible resolveCacheDir
              "1.0.0" remoteOptions "FUNCTIONS_DIST" (VString "/tmp/dist"))
    as (constantsC & v' & HC & Hv' & Hlookup);
    [discriminate | discriminate | discriminate
    | vm_compute; reflexivity |].
  exists constantsC. split; [exact HC |].
  vm_compute in Hv'. injection Hv' as <-. rewrite Hlookup.
  split; [reflexivity | discriminate].
Qed.

(** C4, amended: the record [getConstants] builds before the recomputation
    pass holds, for [FUNCTIONS_DIST] and [EDGE_FUNCTIONS_DIST], the directory
    it was given when the mode is [buildbot], and otherwise the join of the
    package path (empty when there is none) with that directory; the record
    [getConstants] returns holds that value normalized against the build
    directory. With package path [pkg] and directory [/tmp/dist] the join is
    [pkg/tmp/dist]. *)
Theorem dist_dirs_by_mode (cwd : string) (fs : string → access)
    (getCacheDir : option string → string → string) (version : string)
    (o : Options) :
  let base := baseConstants getCacheDir version o in
  let dist (dir : string) : string :=
    if decide (o.(mode) = "buildbot") then dir
    else Path.join [orEmpty o.(packagePath); dir] in
  base !! "FUNCTIONS_DIST" = Some (VString (dist o.(functionsDistDir)))
  ∧ base !! "EDGE_FUNCTIONS_DIST"
    = Some (VString (dist o.(edgeFunctionsDistDir)))
  ∧ (∃ constantsC v,
       getConstants cwd fs getCacheDir version o = Ok constantsC
       ∧ normalizePath cwd (VString (dist o.(functionsDistDir)))
           o.(buildDir) "FUNCTIONS_DIST" = Ok v
       ∧ constantsC !! "FUNCTIONS_DIST" = Some v)
  ∧ (∃ constantsC v,
       getConstants cwd fs getCacheDir version o = Ok constantsC
       ∧ normalizePath cwd (VString (dist o.(edgeFunctionsDistDir)))
           o.(buildDir) "EDGE_FUNCTIONS_DIST" = Ok v
       ∧ constantsC !! "EDGE_FUNCTIONS_DIST" = Some v)
  ∧ Path.join ["pkg"; "/tmp/dist"] = "pkg/tmp/dist".
Proof.
  intros base dist.
  assert (Hfunctions :
            base !! "FUNCTIONS_DIST"
            = Some (VString (dist o.(functionsDistDir)))).
  { unfold base, baseConstants, dist. rewrite !list_to_map_cons.
    rewrite !lookup_insert_ne, lookup_insert_eq by done.
    by destruct (decide (o.(mode) = "buildbot")) as [-> | Hmode];
      [|rewrite bool_decide_eq_true_2]. }
  assert (Hedge :
            base !! "EDGE_FUNCTIONS_DIST"
            = Some (VString (dist o.(edgeFunctionsDistDir)))).
  { unfold base, baseConstants, dist. rewrite !list_to_map_cons.
    rewrite !lookup_insert_ne, lookup_insert_eq by done.
    by destruct (decide (o.(mode) = "buildbot")) as [-> | Hmode];
      [|rewrite bool_decide_eq_true_2]. }
  split; [exact Hfunctions |]. split; [exact Hedge |].
  split; [|split; [|vm_compute; reflexivity]].
  - destruct (getConstants_field cwd fs getCacheDir version o
                "FUNCTIONS_DIST" _ ltac:(discriminate) ltac:(discriminate)
                ltac:(discriminate) Hfunctions)
      as (constantsC & v & H). by exists constantsC, v.
  - destruct (getConstants_field cwd fs getCacheDir version o
                "EDGE_FUNCTIONS_DIST" _ ltac:(discriminate)
                ltac:(discriminate) ltac:(discriminate) Hedge)
      as (constantsC & v & H). by exists constantsC, v.
Qed.

(** ** Normalization of one path *)

(** C5, as stated, fails: an absolute path outside the build root whose
    name only begins like the build root is not returned unchanged; with
    build root [/opt/build/repo], [/opt/build/repo-cache] becomes
    [../repo-cache]. *)
Lemma outside_absolute_counterexample :
  Path.isAbsolute "/opt/build/repo-cache" = true
  ∧ ¬ residesUnder "/opt/build/repo" (Path.normalize "/opt/build/repo-cache")
  ∧ normalizePath "/opt/build/repo" (VString "/opt/build/repo-cache")
      "/opt/build/repo" "CACHE_DIR" = Ok (VString "../repo-cache")
  ∧ normalizePath "/opt/build/repo" (VString "/opt/build/repo-cache")
      "/opt/build/repo" "CACHE_DIR"
    ≠ Ok (VString (Path.normalize "/opt/build/repo-cache")).
Proof.
  split; [reflexivity |]. split.
  - intros [rest Hrest]. vm_compute in Hrest. discriminate.
  - vm_compute. split; [reflexivity | discriminate].
Qed.

(** C5, amended: a non-empty path under a path-bearing key is normalized to
    exactly one of: [.] when its canonical form is the build root; what
    [path.relative] computes from the build root to its canonical form when
    the build root is a proper string prefix of that form, which for an
    absolute build root is never an absolute path; its canonical form,
    unchanged, when the build root is not a string prefix of it. In
    particular a path whose canonical form does not start with the build
    root, as a string, is returned in canonical form. *)
Theorem normalizePath_cases (cwd p buildDir key : string) :
  key ∈ CONSTANT_PATHS → p ≠ "" →
  let pathA := Path.normalize p in
  ((pathA = buildDir
    ∧ normalizePath cwd (VString p) buildDir key = Ok (VString "."))
   ∨ (pathA ≠ buildDir ∧ Str.startsWith pathA buildDir = true
      ∧ normalizePath cwd (VString p) buildDir key
        = Ok (VString (Path.relative cwd buildDir pathA))
      ∧ (Path.isAbsolute buildDir = true →
         Path.isAbsolute (Path.relative cwd buildDir pathA) = false))
   ∨ (Str.startsWith pathA buildDir = false
      ∧ normalizePath cwd (VString p) buildDir key = Ok (VString pathA)))
  ∧ (Str.startsWith pathA buildDir = false →
     normalizePath cwd (VString p) buildDir key = Ok (VString pathA)).
Proof.
  intros Hkey Hp pathA. unfold pathA.
  destruct (normalizePath_branches cwd p buildDir key Hkey Hp)
    as [[Heq Hdot] | [(Hne & Hprefix & Hrel) | [Hprefix Hsame]]].
  - split; [by left |]. intros Hprefix.
    by rewrite Heq, StrFacts.startsWith_refl in Hprefix.
  - split; [right; left | congruence].
    repeat split; [done | done | done |].
    intros Habs.
    destruct (PathFacts.relative_absolute cwd buildDir (Path.normalize p)
                Habs (StrFacts.startsWith_head _ _ Hprefix Habs))
      as [-> | [Hqrel _]]; done.
  - split; [by right; right | done].
Qed.

Lemma normalizePath_cases_witness :
  "CACHE_DIR" ∈ CONSTANT_PATHS
  ∧ "/opt/build/repo-cache" ≠ ""
  ∧ normalizePath "/" (VString "/opt/build/repo-cache") "/opt/build/repo"
      "CACHE_DIR"
    = Ok (VString (Path.relative "/" "/opt/build/repo"
                     (Path.normalize "/opt/build/repo-cache"))).
Proof.
  assert (Hkey : "CACHE_DIR" ∈ CONSTANT_PATHS)
    by (apply path_key; vm_compute; reflexivity).
  assert (Hp : "/opt/build/repo-cache" ≠ "") by discriminate.
  split; [exact Hkey |]. split; [exact Hp |].
  destruct (normalizePath_cases "/" "/opt/build/repo-cache" "/opt/build/repo"
              "CACHE_DIR" Hkey Hp)
    as [[[Heq _] | [(_ & _ & Hrel & _) | [Hprefix _]]] _].
  - vm_compute in Heq. discriminate.
  - exact Hrel.
  - vm_compute in Hprefix. discriminate.
Defined.

(** C6, as stated, fails: a build root that is not in canonical form does
    not normalize to [.]; [/repo/./site] normalizes to [/repo/site]. *)
Lemma root_collapse_counterexample :
  "PUBLISH_DIR" ∈ CONSTANT_PATHS
  ∧ normalizePath "/repo" (VString "/repo/./site") "/repo/./site"
      "PUBLISH_DIR" = Ok (VString "/repo/site")
  ∧ normalizePath "/repo" (VString "/repo/./site") "/repo/./site"
      "PUBLISH_DIR" ≠ Ok (VString ".").
Proof.
  split; [apply path_key; vm_compute; reflexivity |].
  vm_compute. split; [reflexivity | discriminate].
Qed.

(** C6, amended: for every build root that is in canonical form (one that
    [path.normalize] returns as it is, which the empty string is not) and
    every path-bearing key, normalizing the build root itself yields [.]. *)
Theorem root_collapse (cwd buildDir key : string) :
  key ∈ CONSTANT_PATHS → Path.normalize buildDir = buildDir →
  normalizePath cwd (VString buildDir) buildDir key = Ok (VString ".").
Proof.
  intros Hkey Hcanonical.
  assert (Hne : buildDir ≠ "") by (by intros ->).
  rewrite normalizePath_string by done. by rewrite decide_True.
Qed.

Lemma root_collapse_witness :
  "PUBLISH_DIR" ∈ CONSTANT_PATHS
  ∧ Path.normalize "/opt/build/repo" = "/opt/build/repo"
  ∧ normalizePath "/" (VString "/opt/build/repo") "/opt/build/repo"
      "PUBLISH_DIR" = Ok (VString ".").
Proof.
  assert (Hkey : "PUBLISH_DIR" ∈ CONSTANT_PATHS)
    by (apply path_key; vm_compute; reflexivity).
  assert (Hcanonical : Path.normalize "/opt/build/repo" = "/opt/build/repo")
    by (vm_compute; reflexivity).
  split; [exact Hkey |]. split; [exact Hcanonical |].
  exact (root_collapse "/" "/opt/build/repo" "PUBLISH_DIR" Hkey Hcanonical).
Defined.

(** C2, as stated, fails: with a relative build root the result of
    normalization can itself be the build root, and normalizing it again
    gives [.]; with build root [site], [site/site] becomes [site], and
    [site] becomes [.]. *)
Lemma idempotence_counterexample :
  "PUBLISH_DIR" ∈ CONSTANT_PATHS
  ∧ normalizePath "/repo" (VString "site/site") "site" "PUBLISH_DIR"
    = Ok (VString "site")
  ∧ normalizePath "/repo" (VString "site") "site" "PUBLISH_DIR"
    = Ok (VString ".")
  ∧ normalizePath "/repo" (VString "site") "site" "PUBLISH_DIR"
    ≠ Ok (VString "site").
Proof.
  split; [apply path_key; vm_compute; reflexivity |].
  vm_compute. split; [reflexivity |]. split; [reflexivity | discriminate].
Qed.

(** C2, amended: for every absolute build root (one that begins with [/]),
    every path and every key, normalizing a path returns a path that
    normalizing again returns as it is. *)
Theorem normalizePath_idempotent (cwd p buildDir key : string) :
  Path.isAbsolute buildDir = true →
  ∃ q, normalizePath cwd (VString p) buildDir key = Ok (VString q)
       ∧ normalizePath cwd (VString q) buildDir key = Ok (VString q).
Proof.
  intros Habs.
  destruct (decide (key ∈ CONSTANT_PATHS)) as [Hkey | Hkey];
    [|exists p; by rewrite !normalizePath_noop by auto].
  destruct (decide (p = "")) as [-> | Hp];
    [exists ""; by rewrite !normalizePath_noop by auto |].
  assert (Hrelative : ∀ q, q ≠ "" → Path.isAbsolute q = false →
            Path.normalize q = q →
            normalizePath cwd (VString q) buildDir key = Ok (VString q)).
  { intros q Hq Hqrel Hqfix. rewrite normalizePath_string, Hqfix by done.
    rewrite decide_False by (intros ->; congruence).
    destruct (Str.startsWith q buildDir) eqn:Hprefix; [|done].
    apply StrFacts.startsWith_head in Hprefix; [|done].
    unfold Path.isAbsolute in Hqrel. congruence. }
  destruct (normalizePath_branches cwd p buildDir key Hkey Hp)
    as [[_ Hdot] | [(_ & Hprefix & Hrel) | [Hprefix Hsame]]].
  - exists ".". split; [done |]. by apply Hrelative.
  - exists (Path.relative cwd buildDir (Path.normalize p)).
    split; [done |].
    destruct (PathFacts.relative_absolute cwd buildDir (Path.normalize p)
                Habs (StrFacts.startsWith_head _ _ Hprefix Habs))
      as [-> | [Hqrel Hqfix]]; [by apply normalizePath_noop; auto |].
    apply Hrelative; [|done | done].
    intros Heq. rewrite Heq in Hqfix. done.
  - exists (Path.normalize p). split; [done |].
    rewrite normalizePath_string
      by (done || apply PathFacts.normalize_nonempty).
    rewrite PathFacts.normalize_idem.
    rewrite decide_False.
    + by rewrite Hprefix.
    + intros Heq. rewrite Heq, StrFacts.startsWith_refl in Hprefix. done.
Qed.

Lemma normalizePath_idempotent_witness :
  Path.isAbsolute "/opt/build/repo" = true
  ∧ ∃ q, normalizePath "/" (VString "/opt/build/repo/dist/../out")
           "/opt/build/repo" "PUBLISH_DIR" = Ok (VString q)
         ∧ normalizePath "/" (VString q) "/opt/build/repo" "PUBLISH_DIR"
           = Ok (VString q).
Proof.
  split; [reflexivity |].
  exact (normalizePath_idempotent "/" "/opt/build/repo/dist/../out"
           "/opt/build/repo" "PUBLISH_DIR" eq_refl).
Defined.

(** ** Facts about [path.resolve] *)

Module ResolveFacts.
Import Str StrFacts Path PathFacts.

Lemma normalizeSegment_pop (a : bool) (x : string) (res : list string) :
  plain x → normalizeSegment a (x :: res) ".." = res.
Proof.
  intros (_ & _ & Hx & _). unfold normalizeSegment.
  rewrite decide_False by (by intros [?|?]).
  rewrite decide_True by done. by rewrite decide_False.
Qed.

Lemma normalizeSegment_pop_drop (res : list string) :
  Forall plain res → normalizeSegment false res ".." = drop 1 res.
Proof.
  intros Hres. destruct res as [|x res]; [done |].
  apply Forall_cons in Hres as [Hx _]. by rewrite normalizeSegment_pop.
Qed.

Lemma foldl_pops (n : nat) (res : list string) :
  Forall plain res →
  foldl (normalizeSegment false) res (replicate n "..") = drop n res.
Proof.
  revert res. induction n as [|n IH]; intros res Hres; [done |].
  simpl foldl. rewrite normalizeSegment_pop_drop by done.
  rewrite IH by (by apply Forall_drop). by rewrite drop_drop.
Qed.

(** Normalizing above an empty stack and below a stack of names agree:
    the [..] that climb above the former remove names of the latter. *)
Lemma simulate_above (res segs : list string) :
  Forall plain res → Forall (λ seg, slashFree seg = true) segs →
  ∃ n names,
    foldl (normalizeSegment true) [] segs = names ++ replicate n ".."
    ∧ Forall plain names
    ∧ foldl (normalizeSegment false) res segs = names ++ drop n res.
Proof.
  intros Hres. induction segs as [|seg segs IH] using rev_ind; intros Hfree.
  { by exists 0, []. }
  apply Forall_app in Hfree as [Hfree [Hseg _]%Forall_cons].
  destruct (IH Hfree) as (n & names & HT & Hnames & HF).
  rewrite !foldl_app. simpl foldl. rewrite HT, HF.
  destruct (decide (seg = "" ∨ seg = ".")) as [Hskip | Hskip].
  { exists n, names. unfold normalizeSegment. by rewrite !decide_True. }
  destruct (decide (seg = "..")) as [-> | Hup].
  - destruct names as [|x names].
    + exists (S n), []. simpl app.
      rewrite normalizeSegment_up, normalizeSegment_pop_drop
        by (by apply Forall_drop).
      split; [done |]. split; [done |]. rewrite drop_drop. f_equal. lia.
    + apply Forall_cons in Hnames as [Hx Hnames].
      exists n, names. simpl app. by rewrite !normalizeSegment_pop.
  - assert (Hplain : plain seg).
    { split; [intros ->; apply Hskip; by left |].
      split; [intros ->; apply Hskip; by right |]. by split. }
    exists n, (seg :: names). rewrite !normalizeSegment_plain by done.
    split; [done |]. split; [by constructor | done].
Qed.

Lemma above_then_below (res segs : list string) :
  Forall plain res → Forall (λ seg, slashFree seg = true) segs →
  foldl (normalizeSegment false) res (normalizeSegments true segs)
  = foldl (normalizeSegment false) res segs.
Proof.
  intros Hres Hfree.
  destruct (simulate_above res segs Hres Hfree) as (n & names & HT & Hn & HF).
  unfold normalizeSegments.
  rewrite HT, HF, rev_app_distr, rev_replicate, foldl_app, foldl_pops by done.
  rewrite foldl_names.
  - by rewrite rev_involutive.
  - apply Forall_forall. intros x Hx%list_elem_of_In%in_rev%list_elem_of_In.
    rewrite Forall_forall in Hn. by apply Hn.
Qed.

Lemma below_idem (segs : list string) :
  Forall (λ seg, slashFree seg = true) segs →
  foldl (normalizeSegment false) [] (normalizeSegments false segs)
  = foldl (normalizeSegment false) [] segs.
Proof.
  intros Hfree.
  pose proof (normalizeSegments_fix false _
                (normalizeSegments_normalForm false segs Hfree)) as Hfix.
  unfold normalizeSegments at 1 3 in Hfix.
  apply (f_equal (@rev string)) in Hfix. by rewrite !rev_involutive in Hfix.
Qed.

Lemma stack_plain (segs : list string) :
  Forall (λ seg, slashFree seg = true) segs →
  Forall plain (foldl (normalizeSegment false) [] segs).
Proof.
  intros Hfree.
  destruct (foldl_ok false segs [] Hfree (stackOk_nil false))
    as (n & names & -> & Hnames & Hn).
  rewrite (Hn eq_refl). by rewrite app_nil_r.
Qed.

(** The stack [path.resolve] ends with for one argument [q], when the
    current directory is the absolute path [root]: that of [q] alone when
    [q] is absolute, that of [root] followed by [q] otherwise. *)
Lemma resolve_stack (root q : string) :
  isAbsolute root = true →
  resolve root [q]
  = "/" +:+ unsplit
      (rev (foldl (normalizeSegment false)
              (if isAbsolute q then []
               else foldl (normalizeSegment false) [] (split root))
              (split q))).
Proof.
  intros Hroot. unfold resolve, normalizeString, normalizeSegments. simpl.
  assert (Hne : root ≠ "") by (by intros ->).
  destruct (decide (q = "")) as [-> | Hq].
  - rewrite decide_False, Hroot by done. simpl.
    change (root +:+ "/" +:+ "") with (root +:+ String slash "").
    by rewrite split_app_slash, foldl_app.
  - destruct (isAbsolute q) eqn:Hqabs.
    + change (q +:+ "/" +:+ "") with (q +:+ String slash "").
      by rewrite split_app_slash, foldl_app.
    + rewrite decide_False, Hroot by done.
      change (root +:+ "/" +:+ q +:+ "/" +:+ "")
        with (root +:+ String slash (q +:+ String slash "")).
      by rewrite !split_app_slash, !foldl_app.
Qed.

Lemma isAbsolute_render (isAbs trailing : bool) (segs : list string) :
  Forall (λ seg, seg ≠ "" ∧ slashFree seg = true) segs →
  isAbsolute (render isAbs trailing segs) = isAbs.
Proof.
  intros Helems. destruct segs as [|x st]; [by destruct isAbs, trailing |].
  apply Forall_cons in Helems as [[Hx Hfree] _].
  unfold render. destruct isAbs.
  - change ([""] ++ (x :: st) ++ _)
      with ("" :: x :: (st ++ (if trailing then [""] else []))).
    by rewrite unsplit_cons.
  - by apply headIsSlash_unsplit.
Qed.

Lemma stack_of_render (a isAbs trailing : bool) (base segs : list string) :
  Forall (λ seg, seg ≠ "" ∧ slashFree seg = true) segs →
  foldl (normalizeSegment a) base (split (render isAbs trailing segs))
  = foldl (normalizeSegment a) base segs.
Proof.
  intros Helems. destruct segs as [|x st]; [by destruct isAbs, trailing |].
  unfold render. rewrite split_unsplit.
  - rewrite !foldl_app. by destruct isAbs, trailing.
  - by destruct isAbs.
  - repeat apply Forall_app_2.
    + by destruct isAbs; repeat constructor.
    + eapply Forall_impl; [exact Helems |]. by intros ? [_ ?].
    + by destruct trailing; repeat constructor.
Qed.

(** [path.resolve] does not see whether its argument was normalized. *)
Lemma stack_normalize (root p : string) :
  p ≠ "" →
  isAbsolute (normalize p) = isAbsolute p
  ∧ foldl (normalizeSegment false)
      (if isAbsolute p then []
       else foldl (normalizeSegment false) [] (split root))
      (split (normalize p))
    = foldl (normalizeSegment false)
        (if isAbsolute p then []
         else foldl (normalizeSegment false) [] (split root))
        (split p).
Proof.
  intros Hp. rewrite normalize_render by done.
  pose proof (normalForm_elems _ _
                (normalizeSegments_normalForm (negb (isAbsolute p)) (split p)
                   (split_all_slashFree p))) as Helems.
  split; [by apply isAbsolute_render |].
  rewrite stack_of_render by done.
  destruct (isAbsolute p); simpl negb.
  - apply below_idem, split_all_slashFree.
  - apply above_then_below; [|apply split_all_slashFree].
    apply stack_plain, split_all_slashFree.
Qed.

Lemma dropCommon_spec (fromSegs toSegs : list string) :
  ∃ common,
    fromSegs = common ++ (dropCommon fromSegs toSegs).1
    ∧ toSegs = common ++ (dropCommon fromSegs toSegs).2.
Proof.
  revert toSegs. induction fromSegs as [|f fromSegs IH]; intros toSegs.
  { by exists []. }
  destruct toSegs as [|t toSegs]; [by exists [] |].
  simpl. destruct (decide (f = t)) as [<- | Hne]; [|by exists []].
  destruct (IH toSegs) as (common & Hfrom & Hto).
  exists (f :: common). simpl. by rewrite <- Hfrom, <- Hto.
Qed.

Lemma unsplit_inj_plain (l1 l2 : list string) :
  Forall plain l1 → Forall plain l2 →
  "/" +:+ unsplit l1 = "/" +:+ unsplit l2 → l1 = l2.
Proof.
  intros H1 H2 Heq.
  by rewrite <- (segments_resolved l1 H1), <- (segments_resolved l2 H2), Heq.
Qed.

Lemma normalizeSegments_trailing (a : bool) (segs : list string) :
  normalizeSegments a (segs ++ [""]) = normalizeSegments a segs.
Proof. exact (normalizeSegments_padded a false true segs). Qed.

(** Resolved from the directory it was computed against, what
    [path.relative] returns for two absolute paths leads to the second. *)
Lemma relative_stack (cwd root to : string) :
  isAbsolute root = true → isAbsolute to = true →
  foldl (normalizeSegment false)
    (foldl (normalizeSegment false) [] (split root))
    (split (relative cwd root to))
  = foldl (normalizeSegment false) [] (split to).
Proof.
  intros Hroot Hto. unfold relative.
  destruct (decide (root = to)) as [<- | Hne]; [done |].
  rewrite !resolve_absolute by done.
  change (root +:+ "/" +:+ "") with (root +:+ String slash "").
  change (to +:+ "/" +:+ "") with (to +:+ String slash "").
  rewrite !split_app_slash.
  rewrite !normalizeSegments_trailing.
  pose proof (normalizeSegments_plain _ (split_all_slashFree root)) as HF.
  pose proof (normalizeSegments_plain _ (split_all_slashFree to)) as HT.
  unfold normalizeSegments in *.
  set (R := foldl (normalizeSegment false) [] (split root)) in *.
  set (S := foldl (normalizeSegment false) [] (split to)) in *.
  case_decide as Hsame.
  { apply unsplit_inj_plain in Hsame; [|done|done].
    apply (f_equal (@rev string)) in Hsame.
    by rewrite !rev_involutive in Hsame. }
  rewrite !segments_resolved by done.
  destruct (dropCommon_spec (rev R) (rev S)) as (common & HR & HS).
  pose proof (dropCommon_Forall plain _ _ HF HT) as [_ Hrest].
  destruct (dropCommon (rev R) (rev S)) as [fromRest toRest].
  simpl in HR, HS, Hrest.
  apply (f_equal (@rev string)) in HR, HS.
  rewrite rev_involutive, rev_app_distr in HR, HS.
  assert (HRplain : Forall plain R).
  { apply Forall_forall. intros x Hx%list_elem_of_In%in_rev%list_elem_of_In.
    rewrite Forall_forall in HF. by apply HF. }
  destruct (((λ _, "..") <$> fromRest) ++ toRest) as [|x segs] eqn:E.
  { apply app_eq_nil in E as [Hf ->]. apply fmap_nil_inv in Hf as ->.
    simpl in *. by rewrite HR, HS. }
  rewrite <- E. rewrite split_unsplit.
  - rewrite foldl_app, fmap_ups, foldl_pops, foldl_names by done.
    rewrite HR, HS. rewrite drop_app_length'; [done |].
    by rewrite length_rev.
  - rewrite E. done.
  - apply Forall_app_2.
    + apply Forall_forall. intros y Hy. apply list_elem_of_fmap in Hy
        as (? & -> & _). done.
    + eapply Forall_impl; [exact Hrest | apply plain_slashFree].
Qed.

End ResolveFacts.

(** ** More facts about the constants code *)

Module RecomputeFacts.
Import Str StrFacts Path PathFacts ResolveFacts.

Lemma startsWith_app (s t : string) : startsWith (s +:+ t) s = true.
Proof.
  unfold startsWith. induction s as [|c s IH]; [by destruct t |].
  rewrite str_app_cons. simpl. by destruct (ascii_dec c c).
Qed.

Lemma startsWith_empty (s : string) : s ≠ "" → startsWith "" s = false.
Proof. by destruct s. Qed.

Lemma unsplit_app (l1 l2 : list string) :
  l1 ≠ [] → l2 ≠ [] →
  unsplit (l1 ++ l2) = unsplit l1 +:+ "/" +:+ unsplit l2.
Proof.
  intros H1 H2. induction l1 as [|x [|y l1] IH]; [done | |].
  - destruct l2 as [|z l2]; [done |]. done.
  - change ((x :: y :: l1) ++ l2) with (x :: y :: (l1 ++ l2)).
    rewrite !unsplit_cons, str_app_assoc, str_app_cons. do 2 f_equal.
    by apply IH.
Qed.

Lemma normalForm_plain (a : bool) (segs : list string) :
  Forall plain segs → normalForm a segs.
Proof.
  intros Hsegs. exists 0, (rev segs). split; [by rewrite app_nil_r |].
  split; [|done].
  apply Forall_forall. intros x Hx%list_elem_of_In%in_rev%list_elem_of_In.
  rewrite Forall_forall in Hsegs. by apply Hsegs.
Qed.

Lemma split_rooted (segs : list string) :
  segs ≠ [] → Forall plain segs → split ("/" +:+ unsplit segs) = "" :: segs.
Proof.
  intros Hne Hsegs.
  change ("/" +:+ unsplit segs) with ("" +:+ String slash (unsplit segs)).
  rewrite split_app_slash, split_unsplit; [done | done |].
  eapply Forall_impl; [exact Hsegs | apply plain_slashFree].
Qed.

Lemma normalizeSegments_rooted (segs : list string) :
  Forall plain segs → normalizeSegments false ("" :: segs) = segs.
Proof.
  intros Hsegs.
  pose proof (normalizeSegments_padded false true false segs) as Hpad.
  simpl in Hpad. rewrite app_nil_r in Hpad. rewrite Hpad.
  by apply normalizeSegments_fix, normalForm_plain.
Qed.

Lemma resolve_split (cwd q : string) :
  isAbsolute q = true →
  resolve cwd [q] = "/" +:+ unsplit (normalizeSegments false (split q)).
Proof.
  intros Hq. rewrite resolve_absolute by done.
  change (q +:+ "/" +:+ "") with (q +:+ String slash "").
  by rewrite split_app_slash, normalizeSegments_trailing.
Qed.

(** An absolute path made of names is in canonical form, and resolves to
    itself. *)
Lemma normalize_rooted (segs : list string) :
  segs ≠ [] → Forall plain segs →
  normalize ("/" +:+ unsplit segs) = "/" +:+ unsplit segs.
Proof.
  intros Hne Hsegs.
  pose proof (normalize_of_render true false segs
                (normalForm_plain _ _ Hsegs)) as Hfix.
  destruct segs as [|x segs]; [done |].
  unfold render in Hfix.
  change ([""] ++ (x :: segs) ++ []) with ("" :: (x :: segs) ++ []) in Hfix.
  rewrite app_nil_r in Hfix. by rewrite unsplit_cons in Hfix.
Qed.

Lemma resolve_rooted (cwd : string) (segs : list string) :
  segs ≠ [] → Forall plain segs →
  resolve cwd ["/" +:+ unsplit segs] = "/" +:+ unsplit segs.
Proof.
  intros Hne Hsegs.
  by rewrite resolve_split, split_rooted, normalizeSegments_rooted.
Qed.

Lemma dropCommon_prefix (dirs names : list string) :
  dropCommon dirs (dirs ++ names) = ([], names).
Proof.
  induction dirs as [|d dirs IH]; [by destruct names |].
  simpl. by rewrite decide_True.
Qed.

Lemma rooted_app (dirs names : list string) :
  dirs ≠ [] → names ≠ [] →
  ("/" +:+ unsplit dirs) +:+ "/" +:+ unsplit names
  = "/" +:+ unsplit (dirs ++ names).
Proof.
  intros Hd Hn. by rewrite unsplit_app, str_app_assoc.
Qed.

Section WithEnvironment.

Variable cwd : string.
Variable fs : string → access.

(** A path made of names below a build directory made of names comes back
    as those names. *)
Lemma normalizePath_inside (dirs names : list string) (key : string) :
  key ∈ CONSTANT_PATHS → dirs ≠ [] → names ≠ [] →
  Forall plain dirs → Forall plain names →
  normalizePath cwd
    (VString (("/" +:+ unsplit dirs) +:+ "/" +:+ unsplit names))
    ("/" +:+ unsplit dirs) key
  = Ok (VString (unsplit names)).
Proof.
  intros Hkey Hd Hn Hdirs Hnames.
  assert (Hall : Forall plain (dirs ++ names)) by (by apply Forall_app_2).
  assert (Hne : dirs ++ names ≠ []) by (by destruct dirs).
  rewrite normalizePath_string by done.
  rewrite rooted_app, normalize_rooted by done.
  rewrite decide_False.
  2: { intros Heq%unsplit_inj_plain; [|done|done].
       rewrite <- (app_nil_r dirs) in Heq at 2.
       by apply app_inv_head in Heq. }
  rewrite <- rooted_app, startsWith_app, rooted_app by done.
  do 2 f_equal. unfold relative.
  rewrite decide_False.
  2: { intros Heq%unsplit_inj_plain; [|done|done].
       rewrite <- (app_nil_r dirs) in Heq at 1.
       by apply app_inv_head in Heq. }
  rewrite !resolve_rooted by done.
  rewrite decide_False.
  2: { intros Heq%unsplit_inj_plain; [|done|done].
       rewrite <- (app_nil_r dirs) in Heq at 1.
       by apply app_inv_head in Heq. }
  by rewrite !segments_resolved, dropCommon_prefix.
Qed.

(** A relative path in canonical form is left alone under an absolute build
    directory. *)
Lemma normalizePath_relative_fixed (q buildDir key : string) :
  isAbsolute buildDir = true → q ≠ "" → isAbsolute q = false →
  normalize q = q →
  normalizePath cwd (VString q) buildDir key = Ok (VString q).
Proof.
  intros Habs Hq Hrel Hfix.
  destruct (decide (key ∈ CONSTANT_PATHS)) as [Hkey | Hkey];
    [|by apply normalizePath_noop; auto].
  rewrite normalizePath_string, Hfix by done.
  rewrite decide_False by (intros ->; congruence).
  destruct (startsWith q buildDir) eqn:Hprefix; [|done].
  apply startsWith_head in Hprefix; [|done].
  unfold isAbsolute in Hrel. congruence.
Qed.

Lemma normalizePath_stable (v v' : value) (buildDir key : string) :
  isAbsolute buildDir = true →
  normalizePath cwd v buildDir key = Ok v' →
  normalizePath cwd v' buildDir key = Ok v'.
Proof.
  intros Habs Hv.
  destruct (decide (key ∈ CONSTANT_PATHS)) as [Hkey | Hkey];
    [|by rewrite normalizePath_noop in Hv |- * by auto].
  destruct v as [|p|b].
  - rewrite normalizePath_noop in Hv by auto. by injection Hv as <-.
  - destruct (decide (p = "")) as [-> | Hp].
    { rewrite normalizePath_noop in Hv by auto. by injection Hv as <-. }
    destruct (normalizePath_branches cwd p buildDir key Hkey Hp)
      as [[_ Hdot] | [(_ & Hprefix & Hrel) | [Hprefix Hsame]]].
    + rewrite Hdot in Hv. injection Hv as <-.
      by apply normalizePath_relative_fixed.
    + rewrite Hrel in Hv. injection Hv as <-.
      destruct (relative_absolute cwd buildDir (normalize p) Habs
                  (startsWith_head _ _ Hprefix Habs))
        as [-> | [Hqrel Hqfix]]; [by apply normalizePath_noop; auto |].
      apply normalizePath_relative_fixed; [done | | done | done].
      intros Heq. by rewrite Heq in Hqfix.
    + rewrite Hsame in Hv. injection Hv as <-.
      rewrite normalizePath_string by (done || apply normalize_nonempty).
      rewrite normalize_idem, decide_False; [by rewrite Hprefix |].
      intros Heq. by rewrite Heq, startsWith_refl in Hprefix.
  - unfold normalizePath in Hv.
    rewrite (bool_decide_eq_true_2 _ Hkey) in Hv. done.
Qed.

Lemma normalizePath_boolean (b : bool) (buildDir key : string) :
  key ∈ CONSTANT_PATHS →
  normalizePath cwd (VBoolean b) buildDir key = Throw TypeError.
Proof.
  intros Hkey. unfold normalizePath.
  by rewrite (bool_decide_eq_true_2 _ Hkey).
Qed.

Lemma normalizePath_keeps_type (v v' : value) (buildDir key : string) :
  normalizePath cwd v buildDir key = Ok v' →
  isBoolean v' = true → key ∉ CONSTANT_PATHS.
Proof.
  intros Hv Hbool Hkey. destruct v as [|p|b].
  - rewrite normalizePath_noop in Hv by auto. by injection Hv as <-.
  - destruct (decide (p = "")) as [-> | Hp].
    + rewrite normalizePath_noop in Hv by auto. by injection Hv as <-.
    + rewrite normalizePath_string in Hv by done. by injection Hv as <-.
  - by rewrite normalizePath_boolean in Hv.
Qed.

(** What a successful normalization of the record returns, key by key. *)
Lemma normalizeConstantsPaths_fields (constants constants' : gmap string value)
    (buildDir : string) :
  normalizeConstantsPaths cwd constants buildDir = Ok constants' →
  ∀ key,
    match constants !! key with
    | Some v => ∃ v', normalizePath cwd v buildDir key = Ok v'
                      ∧ constants' !! key = Some v'
    | None => constants' !! key = None
    end.
Proof.
  intros Hnorm. unfold normalizeConstantsPaths in Hnorm.
  pose proof (ObjFacts.mapValues_spec constants
                (λ key path, normalizePath cwd path buildDir key)) as Hspec.
  by rewrite Hnorm in Hspec.
Qed.

Lemma normalizeConstantsPaths_dom (constants constants' : gmap string value)
    (buildDir : string) :
  normalizeConstantsPaths cwd constants buildDir = Ok constants' →
  dom constants' = dom constants.
Proof.
  intros Hnorm.
  pose proof (normalizeConstantsPaths_fields _ _ _ Hnorm) as Hfields.
  apply set_eq. intros key. rewrite !elem_of_dom.
  specialize (Hfields key). destruct (constants !! key) as [v|].
  - destruct Hfields as (v' & _ & ->). by split.
  - rewrite Hfields. by split.
Qed.

Lemma normalizeConstantsPaths_typed (constants constants' : gmap string value)
    (buildDir : string) :
  normalizeConstantsPaths cwd constants buildDir = Ok constants' →
  pathsAreStrings constants'.
Proof.
  intros Hnorm key v' Hkey Hbool.
  pose proof (normalizeConstantsPaths_fields _ _ _ Hnorm key) as Hfields. destruct (constants !! key) as [v|].
  - destruct Hfields as (v'' & Hv & Hlook).
    assert (v'' = v') as -> by congruence.
    by apply (normalizePath_keeps_type v v' buildDir key).
  - congruence.
Qed.

Lemma default_rules (rule : DefaultPath) :
  rule ∈ DEFAULT_PATHS →
  (rule.(constantName) = "FUNCTIONS_SRC"
   ∨ rule.(constantName) = "EDGE_FUNCTIONS_SRC")
  ∧ rule.(constantName) ∈ CONSTANT_PATHS
  ∧ rule.(defaultPath) ≠ ""
  ∧ isAbsolute rule.(defaultPath) = false
  ∧ normalize rule.(defaultPath) = rule.(defaultPath).
Proof.
  intros Hrule. unfold DEFAULT_PATHS in Hrule.
  repeat (apply elem_of_cons in Hrule as [-> | Hrule];
          [split; [auto |];
           split; [apply path_key; vm_compute; reflexivity |];
           split; [discriminate |];
           split; [reflexivity | vm_compute; reflexivity] |]).
  by apply elem_of_nil in Hrule.
Qed.

Lemma candidates_last (buildDir key : string) (rule : DefaultPath) :
  last (candidates fs buildDir key) = Some rule →
  rule ∈ DEFAULT_PATHS ∧ rule.(constantName) = key
  ∧ pathExists fs (buildDir +:+ "/" +:+ rule.(defaultPath)) = true.
Proof.
  intros (l & Hl)%last_Some.
  assert (Hin : rule ∈ candidates fs buildDir key)
    by (rewrite Hl; set_solver).
  unfold candidates in Hin. apply list_elem_of_filter in Hin. tauto.
Qed.

End WithEnvironment.

End RecomputeFacts.

(** ** Further properties of normalization *)

Import Str StrFacts Path PathFacts ResolveFacts RecomputeFacts.

(** X1: under an absolute build directory, a normalized path denotes, from
    the build directory, the location the given path denoted:
    [path.resolve] from the build directory gives the same result for
    both. *)
Theorem normalized_path_same_location (cwd p q buildDir key : string) :
  isAbsolute buildDir = true →
  normalizePath cwd (VString p) buildDir key = Ok (VString q) →
  resolve buildDir [q] = resolve buildDir [p].
Proof.
  intros Habs Hq.
  destruct (decide (key ∈ CONSTANT_PATHS)) as [Hkey | Hkey];
    [|rewrite normalizePath_noop in Hq by auto; by injection Hq as <-].
  destruct (decide (p = "")) as [-> | Hp];
    [rewrite normalizePath_noop in Hq by auto; by injection Hq as <- |].
  destruct (stack_normalize buildDir p Hp) as [HabsA HstackA].
  rewrite !resolve_stack by done. do 3 f_equal.
  destruct (normalizePath_branches cwd p buildDir key Hkey Hp)
    as [[Heq Hdot] | [(_ & Hprefix & Hrel) | [_ Hsame]]].
  - rewrite Hdot in Hq. injection Hq as <-.
    rewrite <- HstackA, <- HabsA, Heq, Habs. done.
  - rewrite Hrel in Hq. injection Hq as <-.
    assert (HA : isAbsolute (normalize p) = true)
      by (by apply (startsWith_head _ buildDir)).
    rewrite <- HstackA, <- HabsA, HA.
    rewrite <- (relative_stack cwd buildDir (normalize p) Habs HA).
    destruct (relative_absolute cwd buildDir (normalize p) Habs HA)
      as [-> | [-> _]]; done.
  - rewrite Hsame in Hq. injection Hq as <-.
    by rewrite HabsA, HstackA.
Qed.

Lemma normalized_path_same_location_witness :
  isAbsolute "/opt/build/repo" = true
  ∧ normalizePath "/" (VString "/opt/build/repo-cache/../repo-cache/x/")
      "/opt/build/repo" "CACHE_DIR" = Ok (VString "../repo-cache/x")
  ∧ resolve "/opt/build/repo" ["../repo-cache/x"]
    = resolve "/opt/build/repo" ["/opt/build/repo-cache/../repo-cache/x/"].
Proof.
  assert (Hq : normalizePath "/"
                 (VString "/opt/build/repo-cache/../repo-cache/x/")
                 "/opt/build/repo" "CACHE_DIR"
               = Ok (VString "../repo-cache/x"))
    by (vm_compute; reflexivity).
  split; [reflexivity |]. split; [exact Hq |].
  exact (normalized_path_same_location "/" _ _ "/opt/build/repo" "CACHE_DIR"
           eq_refl Hq).
Defined.

(** X2: a path made of names below a build directory made of names is
    normalized to those names: what was appended to the build directory
    comes back. *)
Theorem inside_path_made_relative (cwd : string) (dirs names : list string)
    (key : string) :
  key ∈ CONSTANT_PATHS → dirs ≠ [] → names ≠ [] →
  Forall plain dirs → Forall plain names →
  normalizePath cwd
    (VString (("/" +:+ unsplit dirs) +:+ "/" +:+ unsplit names))
    ("/" +:+ unsplit dirs) key
  = Ok (VString (unsplit names)).
Proof.
  intros Hkey Hd Hn Hdirs Hnames. by apply normalizePath_inside.
Qed.

Lemma sample_names_plain :
  Forall plain ["opt"; "build"; "repo"] ∧ Forall plain ["dist"; "site"].
Proof. split; repeat constructor; discriminate. Defined.

Lemma inside_path_made_relative_witness :
  "PUBLISH_DIR" ∈ CONSTANT_PATHS
  ∧ Forall plain ["opt"; "build"; "repo"] ∧ Forall plain ["dist"; "site"]
  ∧ normalizePath "/" (VString "/opt/build/repo/dist/site") "/opt/build/repo"
      "PUBLISH_DIR" = Ok (VString "dist/site").
Proof.
  assert (Hkey : "PUBLISH_DIR" ∈ CONSTANT_PATHS)
    by (apply path_key; vm_compute; reflexivity).
  destruct sample_names_plain as [Hdirs Hnames].
  split; [exact Hkey |]. split; [exact Hdirs |]. split; [exact Hnames |].
  exact (inside_path_made_relative "/" ["opt"; "build"; "repo"]
           ["dist"; "site"] "PUBLISH_DIR" Hkey ltac:(discriminate)
           ltac:(discriminate) Hdirs Hnames).
Defined.



(** X4: under an absolute build directory, no path under a path-bearing key
    still starts with the build directory once normalized. *)
Theorem normalized_path_leaves_build_dir (cwd p q buildDir key : string) :
  isAbsolute buildDir = true → key ∈ CONSTANT_PATHS → p ≠ "" →
  normalizePath cwd (VString p) buildDir key = Ok (VString q) →
  startsWith q buildDir = false.
Proof.
  intros Habs Hkey Hp Hq.
  assert (Hrelative : ∀ s, isAbsolute s = false →
                           startsWith s buildDir = false).
  { intros s Hs. destruct (startsWith s buildDir) eqn:Hprefix; [|done].
    apply startsWith_head in Hprefix; [|done].
    unfold isAbsolute in Hs. congruence. }
  destruct (normalizePath_branches cwd p buildDir key Hkey Hp)
    as [[_ Hdot] | [(_ & Hprefix & Hrel) | [Hprefix Hsame]]].
  - rewrite Hdot in Hq. injection Hq as <-. by apply Hrelative.
  - rewrite Hrel in Hq. injection Hq as <-. apply Hrelative.
    destruct (relative_absolute cwd buildDir (normalize p) Habs
                (startsWith_head _ _ Hprefix Habs)) as [-> | [Hqrel _]];
      done.
  - rewrite Hsame in Hq. by injection Hq as <-.
Qed.

Lemma normalized_path_leaves_build_dir_witness :
  isAbsolute "/opt/build/repo" = true
  ∧ "CACHE_DIR" ∈ CONSTANT_PATHS
  ∧ "/opt/build/repo/.netlify/cache" ≠ ""
  ∧ normalizePath "/" (VString "/opt/build/repo/.netlify/cache")
      "/opt/build/repo" "CACHE_DIR" = Ok (VString ".netlify/cache")
  ∧ startsWith ".netlify/cache" "/opt/build/repo" = false.
Proof.
  assert (Hkey : "CACHE_DIR" ∈ CONSTANT_PATHS)
    by (apply path_key; vm_compute; reflexivity).
  assert (Hp : "/opt/build/repo/.netlify/cache" ≠ "") by discriminate.
  assert (Hq : normalizePath "/" (VString "/opt/build/repo/.netlify/cache")
                 "/opt/build/repo" "CACHE_DIR"
               = Ok (VString ".netlify/cache")) by (vm_compute; reflexivity).
  split; [reflexivity |]. split; [exact Hkey |]. split; [exact Hp |].
  split; [exact Hq |].
  exact (normalized_path_leaves_build_dir "/" _ _ "/opt/build/repo"
           "CACHE_DIR" eq_refl Hkey Hp Hq).
Defined.

(** ** Further properties of the record passes *)

(** X5: normalizing a well-typed record returns a record with exactly the
    keys it was given, and still well-typed, so that it can be normalized
    again. *)
Theorem normalization_keeps_keys (cwd : string)
    (constants : gmap string value) (buildDir : string) :
  pathsAreStrings constants →
  ∃ constants',
    normalizeConstantsPaths cwd constants buildDir = Ok constants'
    ∧ dom constants' = dom constants
    ∧ pathsAreStrings constants'.
Proof.
  intros Htyped.
  destruct (normalizeConstantsPaths_total cwd constants buildDir Htyped)
    as (constants' & Hnorm & _).
  exists constants'. split; [done |]. split.
  - by apply (normalizeConstantsPaths_dom cwd _ _ buildDir).
  - by apply (normalizeConstantsPaths_typed cwd constants _ buildDir).
Qed.

Lemma normalization_keeps_keys_witness :
  pathsAreStrings earlierConstants
  ∧ ∃ constants',
      normalizeConstantsPaths "/repo" earlierConstants "/repo" = Ok constants'
      ∧ dom constants' = dom earlierConstants
      ∧ pathsAreStrings constants'.
Proof.
  split; [exact earlierConstants_typed |].
  exact (normalization_keeps_keys "/repo" earlierConstants "/repo"
           earlierConstants_typed).
Defined.

(** X6: a record that holds a boolean under a path-bearing key cannot be
    normalized: [path.normalize] rejects the boolean and the [TypeError]
    gets through [normalizeConstantsPaths], whatever the other fields. *)
Theorem boolean_path_throws (cwd : string) (constants : gmap string value)
    (buildDir key : string) (b : bool) :
  constants !! key = Some (VBoolean b) → key ∈ CONSTANT_PATHS →
  normalizeConstantsPaths cwd constants buildDir = Throw TypeError.
Proof.
  intros Hlookup Hkey.
  destruct (normalizeConstantsPaths cwd constants buildDir)
    as [constants' | []] eqn:Hnorm; [|done].
  pose proof (normalizeConstantsPaths_fields cwd _ _ _ Hnorm key) as Hfield.
  rewrite Hlookup in Hfield. destruct Hfield as (v' & Hv' & _).
  by rewrite normalizePath_boolean in Hv'.
Qed.

Lemma boolean_path_throws_witness :
  ({[ "SITE_ID" := VString "site"; "PUBLISH_DIR" := VBoolean true ]}
     : gmap string value) !! "PUBLISH_DIR" = Some (VBoolean true)
  ∧ "PUBLISH_DIR" ∈ CONSTANT_PATHS
  ∧ normalizeConstantsPaths "/repo"
      {[ "SITE_ID" := VString "site"; "PUBLISH_DIR" := VBoolean true ]}
      "/repo" = Throw TypeError.
Proof.
  assert (Hkey : "PUBLISH_DIR" ∈ CONSTANT_PATHS)
    by (apply path_key; vm_compute; reflexivity).
  assert (Hlookup :
            ({[ "SITE_ID" := VString "site"; "PUBLISH_DIR" := VBoolean true ]}
               : gmap string value) !! "PUBLISH_DIR" = Some (VBoolean true))
    by (vm_compute; reflexivity).
  split; [exact Hlookup |]. split; [exact Hkey |].
  exact (boolean_path_throws "/repo" _ "/repo" "PUBLISH_DIR" true Hlookup
           Hkey).
Defined.

(** X7: default detection returns, under every key, either the field it was
    given or the relative path of a rule of [DEFAULT_PATHS] that targets the
    key and whose directory exists under the build directory, and the latter
    only where the field was unset. No key is lost, and only [FUNCTIONS_SRC]
    and [EDGE_FUNCTIONS_SRC] can change. *)
Theorem detected_default_sound (fs : string → access)
    (constants : gmap string value) (buildDir key : string) :
  addDefaultConstants fs constants buildDir !! key = constants !! key
  ∨ (isEmptyValue (Obj.get constants key) = true
     ∧ (key = "FUNCTIONS_SRC" ∨ key = "EDGE_FUNCTIONS_SRC")
     ∧ ∃ rule,
         rule ∈ DEFAULT_PATHS ∧ rule.(constantName) = key
         ∧ pathExists fs (buildDir +:+ "/" +:+ rule.(defaultPath)) = true
         ∧ addDefaultConstants fs constants buildDir !! key
           = Some (VString rule.(defaultPath))).
Proof.
  rewrite addDefaultConstants_lookup.
  destruct (isEmptyValue (Obj.get constants key)) eqn:Hempty; [|by left].
  destruct (last (candidates fs buildDir key)) as [rule|] eqn:Hlast;
    [right | by left].
  destruct (candidates_last fs buildDir key rule Hlast)
    as (Hin & Hname & Hexists).
  destruct (default_rules rule Hin) as (Htarget & _).
  split; [done |]. split; [by rewrite <- Hname |]. by exists rule.
Qed.

(** X8: default detection is idempotent: on the record it returned, with
    the same file system, it returns that record. *)
Theorem detection_idempotent (fs : string → access)
    (constants : gmap string value) (buildDir : string) :
  addDefaultConstants fs (addDefaultConstants fs constants buildDir) buildDir
  = addDefaultConstants fs constants buildDir.
Proof.
  apply map_eq. intros key.
  rewrite (addDefaultConstants_lookup fs
             (addDefaultConstants fs constants buildDir)).
  destruct (isEmptyValue (Obj.get (addDefaultConstants fs constants buildDir)
                            key)) eqn:Hempty'; [|done].
  destruct (last (candidates fs buildDir key)) as [rule|] eqn:Hlast; [|done].
  unfold Obj.get in Hempty'.
  rewrite addDefaultConstants_lookup, Hlast in Hempty' |- *.
  destruct (isEmptyValue (Obj.get constants key)) eqn:Hempty.
  - destruct (candidates_last fs buildDir key rule Hlast) as (Hin & _).
    destruct (default_rules rule Hin) as (_ & _ & Hne & _).
    simpl in Hempty'. apply isEmptyValue_true in Hempty' as [? | ?];
      congruence.
  - unfold Obj.get in Hempty. congruence.
Qed.

(** X9: default detection reads the file system only at the three candidate
    directories: two file systems that agree on the existence of each
    candidate under the build directory give the same record. *)
Theorem detection_reads_candidates_only (fs1 fs2 : string → access)
    (constants : gmap string value) (buildDir : string) :
  (∀ rule, rule ∈ DEFAULT_PATHS →
           pathExists fs1 (buildDir +:+ "/" +:+ rule.(defaultPath))
           = pathExists fs2 (buildDir +:+ "/" +:+ rule.(defaultPath))) →
  addDefaultConstants fs1 constants buildDir
  = addDefaultConstants fs2 constants buildDir.
Proof.
  intros Hagree. apply map_eq. intros key.
  rewrite !addDefaultConstants_lookup.
  assert (candidates fs1 buildDir key = candidates fs2 buildDir key) as ->;
    [|done].
  unfold candidates.
  assert (Hall : Forall (λ rule, rule ∈ DEFAULT_PATHS) DEFAULT_PATHS)
    by (by apply Forall_forall).
  induction Hall as [|rule rules Hin _ IH]; [done |].
  destruct (decide (rule.(constantName) = key
                    ∧ pathExists fs2 (buildDir +:+ "/" +:+ rule.(defaultPath))
                      = true)) as [Hrule | Hrule].
  - rewrite !filter_cons_True, IH; [done | done |].
    by rewrite (Hagree rule Hin).
  - rewrite !filter_cons_False, IH; [done | done |].
    by rewrite (Hagree rule Hin).
Qed.

Lemma detection_reads_candidates_only_witness :
  (∀ rule, rule ∈ DEFAULT_PATHS →
           pathExists everythingExists ("/repo" +:+ "/" +:+ rule.(defaultPath))
           = pathExists onlyCandidates ("/repo" +:+ "/" +:+ rule.(defaultPath)))
  ∧ addDefaultConstants everythingExists earlierConstants "/repo"
    = addDefaultConstants onlyCandidates earlierConstants "/repo".
Proof.
  assert (Hagree : ∀ rule, rule ∈ DEFAULT_PATHS →
            pathExists everythingExists
              ("/repo" +:+ "/" +:+ rule.(defaultPath))
            = pathExists onlyCandidates
                ("/repo" +:+ "/" +:+ rule.(defaultPath))).
  { intros rule Hrule. unfold DEFAULT_PATHS in Hrule.
    repeat (apply elem_of_cons in Hrule as [-> | Hrule];
            [vm_compute; reflexivity |]).
    by apply elem_of_nil in Hrule. }
  split; [exact Hagree |].
  exact (detection_reads_candidates_only everythingExists onlyCandidates
           earlierConstants "/repo" Hagree).
Defined.

(** ** Further properties of the recomputation *)

(** X10: under an absolute build directory, a default that detection
    assigns comes out of the recomputation as the relative path of its
    rule: normalization leaves it alone. *)
Theorem detected_default_stays_relative (cwd : string) (fs : string → access)
    (constants : gmap string value) (buildDir key : string)
    (netlifyConfig : NetlifyConfig) (rule : DefaultPath) :
  pathsAreStrings constants → isAbsolute buildDir = true →
  isEmptyValue (Obj.get (overlayConfig constants netlifyConfig) key) = true →
  last (candidates fs buildDir key) = Some rule →
  ∃ constantsC,
    addMutableConstants cwd fs constants buildDir netlifyConfig
    = Ok constantsC
    ∧ constantsC !! key = Some (VString rule.(defaultPath)).
Proof.
  intros Htyped Habs Hempty Hlast. unfold addMutableConstants.
  destruct (normalizeConstantsPaths_total cwd
              (addDefaultConstants fs (overlayConfig constants netlifyConfig)
                 buildDir) buildDir) as (constantsC & HC & Hkeys).
  { by apply pathsAreStrings_defaults, pathsAreStrings_overlay. }
  exists constantsC. split; [done |].
  specialize (Hkeys key).
  rewrite addDefaultConstants_lookup, Hempty, Hlast in Hkeys.
  destruct Hkeys as (v' & Hv' & ->).
  destruct (candidates_last fs buildDir key rule Hlast) as (Hin & _).
  destruct (default_rules rule Hin) as (_ & _ & Hne & Hrel & Hfix).
  rewrite normalizePath_relative_fixed in Hv' by done. congruence.
Qed.

Lemma detected_default_stays_relative_witness :
  pathsAreStrings earlierConstants
  ∧ isAbsolute "/repo" = true
  ∧ isEmptyValue
      (Obj.get (overlayConfig earlierConstants emptyConfig) "FUNCTIONS_SRC")
    = true
  ∧ last (candidates everythingExists "/repo" "FUNCTIONS_SRC")
    = Some {| constantName := "FUNCTIONS_SRC";
              defaultPath := "netlify/functions" |}
  ∧ ∃ constantsC,
      addMutableConstants "/repo" everythingExists earlierConstants "/repo"
        emptyConfig = Ok constantsC
      ∧ constantsC !! "FUNCTIONS_SRC" = Some (VString "netlify/functions").
Proof.
  assert (Hlast : last (candidates everythingExists "/repo" "FUNCTIONS_SRC")
                  = Some {| constantName := "FUNCTIONS_SRC";
                            defaultPath := "netlify/functions" |})
    by (vm_compute; reflexivity).
  split; [exact earlierConstants_typed |]. split; [reflexivity |].
  split; [reflexivity |]. split; [exact Hlast |].
  exact (detected_default_stays_relative "/repo" everythingExists
           earlierConstants "/repo" "FUNCTIONS_SRC" emptyConfig _
           earlierConstants_typed eq_refl eq_refl Hlast).
Defined.

(** X11: under an absolute build directory the recomputation can be fed its
    own result: with the same configuration and file system it returns that
    record again. *)
Theorem recomputation_stable (cwd : string) (fs : string → access)
    (constants : gmap string value) (buildDir : string)
    (netlifyConfig : NetlifyConfig) :
  pathsAreStrings constants → isAbsolute buildDir = true →
  ∃ constantsC,
    addMutableConstants cwd fs constants buildDir netlifyConfig
    = Ok constantsC
    ∧ addMutableConstants cwd fs constantsC buildDir netlifyConfig
      = Ok constantsC.
Proof.
  intros Htyped Habs.
  destruct (normalizeConstantsPaths_total cwd
              (addDefaultConstants fs (overlayConfig constants netlifyConfig)
                 buildDir) buildDir) as (constantsC & HC & Hkeys).
  { by apply pathsAreStrings_defaults, pathsAreStrings_overlay. }
  exists constantsC. split; [done |].
  pose proof (normalizeConstantsPaths_typed cwd _ _ _ HC) as Htyped'.
  destruct (normalizeConstantsPaths_total cwd
              (addDefaultConstants fs (overlayConfig constantsC netlifyConfig)
                 buildDir) buildDir) as (constantsD & HD & Hkeys').
  { by apply pathsAreStrings_defaults, pathsAreStrings_overlay. }
  unfold addMutableConstants. rewrite HD. f_equal.
  apply map_eq. intros key.
  specialize (Hkeys key). specialize (Hkeys' key).
  destruct (decide (key = "PUBLISH_DIR" ∨ key = "FUNCTIONS_SRC"
                    ∨ key = "EDGE_FUNCTIONS_SRC")) as [Hover | Hother].
  - assert (Hsame : overlayConfig constantsC netlifyConfig !! key
                    = overlayConfig constants netlifyConfig !! key).
    { unfold overlayConfig. rewrite !lookup_insert.
      destruct Hover as [-> | [-> | ->]]; by repeat case_decide. }
    rewrite addDefaultConstants_lookup in Hkeys, Hkeys'.
    rewrite (ObjFacts.get_lookup _ _ _ Hsame), Hsame in Hkeys'.
    destruct (if isEmptyValue _ then _ else _) as [v|]; [|congruence].
    destruct Hkeys as (v1 & Hv1 & ->). destruct Hkeys' as (v2 & Hv2 & ->).
    congruence.
  - assert (H1 : key ≠ "PUBLISH_DIR") by tauto.
    assert (H2 : key ≠ "FUNCTIONS_SRC") by tauto.
    assert (H3 : key ≠ "EDGE_FUNCTIONS_SRC") by tauto.
    rewrite addDefaultConstants_untargeted, overlayConfig_other
      in Hkeys, Hkeys' by done.
    destruct (constants !! key) as [v|].
    + destruct Hkeys as (v' & Hv' & Hlookup). rewrite Hlookup in Hkeys' |- *.
      destruct Hkeys' as (v'' & Hv'' & ->).
      rewrite (normalizePath_stable cwd v v' buildDir key Habs Hv') in Hv''.
      congruence.
    + rewrite Hkeys in Hkeys' |- *. done.
Qed.

Lemma recomputation_stable_witness :
  pathsAreStrings earlierConstants
  ∧ isAbsolute "/repo" = true
  ∧ ∃ constantsC,
      addMutableConstants "/repo" everythingExists earlierConstants "/repo"
        emptyConfig = Ok constantsC
      ∧ addMutableConstants "/repo" everythingExists constantsC "/repo"
          emptyConfig = Ok constantsC.
Proof.
  split; [exact earlierConstants_typed |]. split; [reflexivity |].
  exact (recomputation_stable "/repo" everythingExists earlierConstants
           "/repo" emptyConfig earlierConstants_typed eq_refl).
Defined.

(** X12: the recomputation touches the constants other than [PUBLISH_DIR],
    [FUNCTIONS_SRC] and [EDGE_FUNCTIONS_SRC] by normalization only: each
    comes out as [normalizePath] of what the base record held, and a key the
    base record does not have is not added. *)
Theorem recomputation_frame (cwd : string) (fs : string → access)
    (constants : gmap string value) (buildDir key : string)
    (netlifyConfig : NetlifyConfig) :
  pathsAreStrings constants →
  key ≠ "PUBLISH_DIR" → key ≠ "FUNCTIONS_SRC" → key ≠ "EDGE_FUNCTIONS_SRC" →
  ∃ constantsC,
    addMutableConstants cwd fs constants buildDir netlifyConfig
    = Ok constantsC
    ∧ match constants !! key with
      | Some v => ∃ v', normalizePath cwd v buildDir key = Ok v'
                        ∧ constantsC !! key = Some v'
      | None => constantsC !! key = None
      end.
Proof.
  intros Htyped H1 H2 H3. unfold addMutableConstants.
  destruct (normalizeConstantsPaths_total cwd
              (addDefaultConstants fs (overlayConfig constants netlifyConfig)
                 buildDir) buildDir) as (constantsC & HC & Hkeys).
  { by apply pathsAreStrings_defaults, pathsAreStrings_overlay. }
  exists constantsC. split; [done |].
  specialize (Hkeys key).
  by rewrite addDefaultConstants_untargeted, overlayConfig_other in Hkeys.
Qed.

Lemma recomputation_frame_witness :
  pathsAreStrings earlierConstants
  ∧ "PACKAGE_PATH" ≠ "PUBLISH_DIR" ∧ "PACKAGE_PATH" ≠ "FUNCTIONS_SRC"
  ∧ "PACKAGE_PATH" ≠ "EDGE_FUNCTIONS_SRC"
  ∧ ∃ constantsC,
      addMutableConstants "/repo" everythingExists earlierConstants "/repo"
        emptyConfig = Ok constantsC
      ∧ match earlierConstants !! "PACKAGE_PATH" with
        | Some v => ∃ v', normalizePath "/repo" v "/repo" "PACKAGE_PATH"
                          = Ok v'
                          ∧ constantsC !! "PACKAGE_PATH" = Some v'
        | None => constantsC !! "PACKAGE_PATH" = None
        end.
Proof.
  split; [exact earlierConstants_typed |].
  split; [discriminate |]. split; [discriminate |]. split; [discriminate |].
  exact (recomputation_frame "/repo" everythingExists earlierConstants "/repo"
           "PACKAGE_PATH" emptyConfig earlierConstants_typed
           ltac:(discriminate) ltac:(discriminate) ltac:(discriminate)).
Defined.

(** ** Further properties of [getConstants] *)

Lemma addDefaultConstants_dom (fs : string → access)
    (constants : gmap string value) (buildDir : string) :
  "FUNCTIONS_SRC" ∈ dom constants → "EDGE_FUNCTIONS_SRC" ∈ dom constants →
  dom (addDefaultConstants fs constants buildDir) = dom constants.
Proof.
  intros HF HE. apply set_eq. intros key. rewrite !elem_of_dom.
  rewrite addDefaultConstants_lookup.
  destruct (isEmptyValue _); [|done].
  destruct (last (candidates fs buildDir key)) as [rule|] eqn:Hlast; [|done].
  destruct (candidates_last fs buildDir key rule Hlast) as (Hin & Hname & _).
  destruct (default_rules rule Hin) as (Htarget & _).
  rewrite Hname in Htarget. rewrite <- elem_of_dom.
  split; [intros _ | by eexists]. by destruct Htarget as [-> | ->].
Qed.

(** On a typed argument [getConstants] returns a record, and its keys are
    the fifteen constants of [NetlifyPluginConstants]. *)
Lemma getConstants_typed_keys (cwd : string) (fs : string → access)
    (getCacheDir : option string → string → string) (version : string)
    (o : Options) :
  ∃ constantsC,
    getConstants cwd fs getCacheDir version o = Ok constantsC
    ∧ dom constantsC
      = list_to_set
          [ "CONFIG_PATH"; "PUBLISH_DIR"; "FUNCTIONS_SRC"; "PACKAGE_PATH";
            "INTERNAL_EDGE_FUNCTIONS_SRC"; "INTERNAL_FUNCTIONS_SRC";
            "FUNCTIONS_DIST"; "EDGE_FUNCTIONS_DIST"; "EDGE_FUNCTIONS_SRC";
            "IS_LOCAL"; "NETLIFY_BUILD_VERSION"; "SITE_ID";
            "NETLIFY_API_TOKEN"; "NETLIFY_API_HOST"; "CACHE_DIR" ].
Proof.
  unfold getConstants, addMutableConstants.
  destruct (normalizeConstantsPaths_total cwd
              (addDefaultConstants fs
                 (overlayConfig (baseConstants getCacheDir version o)
                    o.(netlifyConfig)) o.(buildDir)) o.(buildDir))
    as (constantsC & HC & _).
  { apply pathsAreStrings_defaults, pathsAreStrings_overlay,
      baseConstants_typed. }
  exists constantsC. split; [done |].
  rewrite (normalizeConstantsPaths_dom cwd _ _ _ HC).
  assert (Hdom : dom (overlayConfig (baseConstants getCacheDir version o)
                        o.(netlifyConfig))
                 = {[ "EDGE_FUNCTIONS_SRC" ]} ∪ ({[ "FUNCTIONS_SRC" ]}
                   ∪ ({[ "PUBLISH_DIR" ]}
                   ∪ list_to_set
                       [ "CONFIG_PATH"; "PACKAGE_PATH"; "FUNCTIONS_DIST";
                         "EDGE_FUNCTIONS_DIST"; "CACHE_DIR"; "IS_LOCAL";
                         "NETLIFY_BUILD_VERSION"; "SITE_ID";
                         "NETLIFY_API_TOKEN"; "NETLIFY_API_HOST";
                         "INTERNAL_FUNCTIONS_SRC";
                         "INTERNAL_EDGE_FUNCTIONS_SRC" ]))).
  { unfold overlayConfig, baseConstants.
    by rewrite !dom_insert_L, dom_list_to_map_L. }
  rewrite addDefaultConstants_dom; rewrite Hdom; [|set_solver|set_solver].
  apply set_eq. intros key. set_solver.
Qed.

(** The keys of the record the recomputation returns. *)
Lemma addMutableConstants_dom (cwd : string) (fs : string → access)
    (constants : gmap string value) (buildDir : string)
    (netlifyConfig : NetlifyConfig) :
  pathsAreStrings constants →
  ∃ constantsC,
    addMutableConstants cwd fs constants buildDir netlifyConfig = Ok constantsC
    ∧ dom constantsC
      = {[ "EDGE_FUNCTIONS_SRC" ]} ∪ ({[ "FUNCTIONS_SRC" ]}
        ∪ ({[ "PUBLISH_DIR" ]} ∪ dom constants)).
Proof.
  intros Htyped. unfold addMutableConstants.
  destruct (normalizeConstantsPaths_total cwd
              (addDefaultConstants fs (overlayConfig constants netlifyConfig)
                 buildDir) buildDir) as (constantsC & HC & _).
  { by apply pathsAreStrings_defaults, pathsAreStrings_overlay. }
  exists constantsC. split; [done |].
  rewrite (normalizeConstantsPaths_dom cwd _ _ _ HC).
  assert (Hdom : dom (overlayConfig constants netlifyConfig)
                 = {[ "EDGE_FUNCTIONS_SRC" ]} ∪ ({[ "FUNCTIONS_SRC" ]}
                   ∪ ({[ "PUBLISH_DIR" ]} ∪ dom constants))).
  { unfold overlayConfig. by rewrite !dom_insert_L. }
  rewrite addDefaultConstants_dom; rewrite Hdom; [done | |];
    rewrite !elem_of_union, !elem_of_singleton; tauto.
Qed.

(** An object literal with the keys of the one in [getConstants] and no
    boolean under a path-bearing key. *)
Lemma untyped_record_typed (a b c d e f g h i j k l : value) :
  isBoolean c = false → isBoolean d = false → isBoolean e = false →
  isBoolean k = false → isBoolean l = false → isBoolean a = false →
  pathsAreStrings
    (list_to_map
      [ ("CONFIG_PATH", a);
        ("PACKAGE_PATH", b);
        ("FUNCTIONS_DIST", c);
        ("EDGE_FUNCTIONS_DIST", d);
        ("CACHE_DIR", e);
        ("IS_LOCAL", f);
        ("NETLIFY_BUILD_VERSION", g);
        ("SITE_ID", h);
        ("NETLIFY_API_TOKEN", i);
        ("NETLIFY_API_HOST", j);
        ("INTERNAL_FUNCTIONS_SRC", k);
        ("INTERNAL_EDGE_FUNCTIONS_SRC", l) ]).
Proof.
  intros. rewrite !list_to_map_cons.
  repeat first
    [ apply pathsAreStrings_insert; [assumption |]
    | apply map_Forall_insert_2;
      [intros _; apply not_path_key; vm_compute; reflexivity |] ].
  apply map_Forall_empty.
Qed.

Lemma mode_untyped (mode : string) :
  bool_decide (Some mode ≠ Some "buildbot") = bool_decide (mode ≠ "buildbot").
Proof. apply bool_decide_ext. split; intros H1 H2; apply H1; congruence. Qed.

(** On an argument that supplies everything, the two models of
    [getConstants] are one function. *)
Lemma getConstants_untyped (cwd : string) (fs : string → access)
    (getCacheDir : option string → string → string) (version : string)
    (o : Options) :
  Untyped.getConstants cwd fs getCacheDir version (untyped o)
  = getConstants cwd fs getCacheDir version o.
Proof.
  unfold Untyped.getConstants, getConstants, baseConstants, untyped.
  cbn -[Path.join list_to_map addMutableConstants].
  rewrite mode_untyped. unfold Untyped.destructured, orEmpty.
  destruct (netlifyConfig o) as [configBuild functionsDirectory] eqn:Hconfig.
  by destruct (bool_decide (mode o ≠ "buildbot")).
Qed.

Lemma supplied_untyped (o : Options) : supplied (untyped o) = true.
Proof.
  unfold supplied, untyped. cbn. by rewrite orb_true_r.
Qed.

(** X13: when its argument supplies [siteInfo], [buildDir],
    [netlifyConfig.build] and, unless the mode is [buildbot], the two
    distribution directories, [getConstants] returns a record whose keys
    are exactly the fifteen constants of [NetlifyPluginConstants]; when one
    of them is missing it raises a [TypeError]. *)
Theorem getConstants_keys_or_throws (cwd : string) (fs : string → access)
    (getCacheDir : option string → string → string) (version : string)
    (o : Untyped.Options) :
  if supplied o
  then ∃ constantsC,
         Untyped.getConstants cwd fs getCacheDir version o = Ok constantsC
         ∧ dom constantsC = constantNames
  else Untyped.getConstants cwd fs getCacheDir version o = Throw TypeError.
Proof.
  assert (Hok : ∀ (dir : string) (config : NetlifyConfig)
                  (a b c d e f g h i j k l : value),
            isBoolean a = false → isBoolean c = false →
            isBoolean d = false → isBoolean e = false →
            isBoolean k = false → isBoolean l = false →
            ∃ constantsC,
              addMutableConstants cwd fs
                (list_to_map
                   [ ("CONFIG_PATH", a); ("PACKAGE_PATH", b);
                     ("FUNCTIONS_DIST", c); ("EDGE_FUNCTIONS_DIST", d);
                     ("CACHE_DIR", e); ("IS_LOCAL", f);
                     ("NETLIFY_BUILD_VERSION", g); ("SITE_ID", h);
                     ("NETLIFY_API_TOKEN", i); ("NETLIFY_API_HOST", j);
                     ("INTERNAL_FUNCTIONS_SRC", k);
                     ("INTERNAL_EDGE_FUNCTIONS_SRC", l) ]) dir config
              = Ok constantsC
              ∧ dom constantsC = constantNames).
  { intros dir config a b c d e f g h i j k l Ha Hc Hd He Hk Hl.
    destruct (addMutableConstants_dom cwd fs
                (list_to_map
                   [ ("CONFIG_PATH", a); ("PACKAGE_PATH", b);
                     ("FUNCTIONS_DIST", c); ("EDGE_FUNCTIONS_DIST", d);
                     ("CACHE_DIR", e); ("IS_LOCAL", f);
                     ("NETLIFY_BUILD_VERSION", g); ("SITE_ID", h);
                     ("NETLIFY_API_TOKEN", i); ("NETLIFY_API_HOST", j);
                     ("INTERNAL_FUNCTIONS_SRC", k);
                     ("INTERNAL_EDGE_FUNCTIONS_SRC", l) ]) dir config)
      as (constantsC & HC & Hdom).
    { by apply untyped_record_typed. }
    exists constantsC. split; [done |].
    rewrite Hdom, dom_list_to_map_L. unfold constantNames.
    apply set_eq. intros key. set_solver. }
  destruct o as [configPath buildDir packagePath functionsDistDir
                 edgeFunctionsDistDir cacheDir netlifyConfig siteInfo
                 apiHost token mode].
  unfold supplied, Untyped.getConstants, Untyped.addMutableConstants.
  cbn -[Path.join list_to_map addMutableConstants constantNames].
  destruct (decide (mode = Some "buildbot")) as [Hmode | Hmode];
    [ rewrite (bool_decide_true _ Hmode),
        (bool_decide_false (mode ≠ Some "buildbot")) by tauto
    | rewrite (bool_decide_false _ Hmode),
        (bool_decide_true (mode ≠ Some "buildbot")) by done ];
    destruct siteInfo as [info|], buildDir as [buildDir|],
      functionsDistDir as [functionsDistDir|],
      edgeFunctionsDistDir as [edgeFunctionsDistDir|],
      netlifyConfig as [[[configBuild|] functionsDirectory]|];
    cbn -[Path.join list_to_map addMutableConstants constantNames];
    first [ reflexivity
          | apply Hok; first [apply isBoolean_ofOption | reflexivity] ].
Qed.

Lemma getConstants_keys_or_throws_witness :
  Untyped.getConstants "/" everythingExists resolveCacheDir "1.0.0"
    withoutFunctionsDist = Throw TypeError
  ∧ ∃ constantsC,
      Untyped.getConstants "/" everythingExists resolveCacheDir "1.0.0"
        (untyped remoteOptions) = Ok constantsC
      ∧ dom constantsC = constantNames.
Proof.
  split.
  - exact (getConstants_keys_or_throws "/" everythingExists resolveCacheDir
             "1.0.0" withoutFunctionsDist).
  - exact (getConstants_keys_or_throws "/" everythingExists resolveCacheDir
             "1.0.0" (untyped remoteOptions)).
Defined.

(** X14: the constants that are not paths come out of [getConstants] as
    they went in: [IS_LOCAL] is whether the mode differs from [buildbot],
    and the site id, the token, the API host, the version and the package
    path are the ones supplied. *)
Theorem getConstants_identifiers (cwd : string) (fs : string → access)
    (getCacheDir : option string → string → string) (version : string)
    (o : Options) :
  ∃ constantsC,
    getConstants cwd fs getCacheDir version o = Ok constantsC
    ∧ constantsC !! "IS_LOCAL"
      = Some (VBoolean (bool_decide (o.(mode) ≠ "buildbot")))
    ∧ constantsC !! "SITE_ID" = Some (ofOption o.(siteInfo).(id))
    ∧ constantsC !! "NETLIFY_API_TOKEN" = Some (ofOption o.(token))
    ∧ constantsC !! "NETLIFY_API_HOST" = Some (ofOption o.(apiHost))
    ∧ constantsC !! "NETLIFY_BUILD_VERSION" = Some (VString version)
    ∧ constantsC !! "PACKAGE_PATH" = Some (ofOption o.(packagePath)).
Proof.
  assert (Hfield : ∀ key v,
            bool_decide (key ∈ CONSTANT_PATHS) = false →
            key ≠ "PUBLISH_DIR" → key ≠ "FUNCTIONS_SRC" →
            key ≠ "EDGE_FUNCTIONS_SRC" →
            baseConstants getCacheDir version o !! key = Some v →
            ∀ constantsC,
              getConstants cwd fs getCacheDir version o = Ok constantsC →
              constantsC !! key = Some v).
  { intros key v Hkey H1 H2 H3 Hbase constantsC HC.
    destruct (getConstants_field cwd fs getCacheDir version o key v
                H1 H2 H3 Hbase) as (constantsC' & v' & HC' & Hv' & Hlookup).
    rewrite normalizePath_noop in Hv' by (by right; right; apply not_path_key).
    congruence. }
  destruct (getConstants_field cwd fs getCacheDir version o "IS_LOCAL" _
              ltac:(discriminate) ltac:(discriminate) ltac:(discriminate)
              ltac:(unfold baseConstants; rewrite !list_to_map_cons;
                    by rewrite !lookup_insert_ne, lookup_insert_eq by done))
    as (constantsC & _ & HC & _).
  exists constantsC. split; [exact HC |].
  unfold baseConstants in Hfield. rewrite !list_to_map_cons in Hfield.
  repeat split.
  - apply Hfield; [vm_compute; reflexivity | discriminate .. | | exact HC].
    by rewrite !lookup_insert_ne, lookup_insert_eq by done.
  - apply Hfield; [vm_compute; reflexivity | discriminate .. | | exact HC].
    by rewrite !lookup_insert_ne, lookup_insert_eq by done.
  - apply Hfield; [vm_compute; reflexivity | discriminate .. | | exact HC].
    by rewrite !lookup_insert_ne, lookup_insert_eq by done.
  - apply Hfield; [vm_compute; reflexivity | discriminate .. | | exact HC].
    by rewrite !lookup_insert_ne, lookup_insert_eq by done.
  - apply Hfield; [vm_compute; reflexivity | discriminate .. | | exact HC].
    by rewrite !lookup_insert_ne, lookup_insert_eq by done.
  - apply Hfield; [vm_compute; reflexivity | discriminate .. | | exact HC].
    by rewrite !lookup_insert_ne, lookup_insert_eq by done.
Qed.

Lemma join_rooted (dirs pkgs names : list string) :
  dirs ≠ [] → names ≠ [] →
  Forall plain dirs → Forall plain pkgs → Forall plain names →
  Path.join ["/" +:+ unsplit dirs; unsplit pkgs; unsplit names]
  = ("/" +:+ unsplit dirs) +:+ "/" +:+ unsplit (pkgs ++ names).
Proof.
  intros Hd Hn Hdirs Hpkgs Hnames. unfold Path.join.
  assert (Hnonempty : ∀ l, l ≠ [] → Forall plain l → unsplit l ≠ "").
  { intros l Hl Hplain Hempty. apply unsplit_empty in Hempty; [done |].
    eapply Forall_impl; [exact Hplain |]. by intros ? (? & _). }
  rewrite filter_cons_True by done.
  assert (Hall : Forall plain (dirs ++ pkgs ++ names))
    by (by repeat apply Forall_app_2).
  assert (Hne : dirs ++ pkgs ++ names ≠ []) by (by destruct dirs).
  destruct pkgs as [|pkg pkgs].
  - rewrite filter_cons_False by (by intros ?).
    rewrite filter_cons_True by (by apply Hnonempty).
    rewrite filter_nil. simpl app.
    change (unsplit ["/" +:+ unsplit dirs; unsplit names])
      with (("/" +:+ unsplit dirs) +:+ "/" +:+ unsplit names).
    by rewrite rooted_app, normalize_rooted.
  - rewrite filter_cons_True by (by apply Hnonempty).
    rewrite filter_cons_True by (by apply Hnonempty).
    rewrite filter_nil.
    change (unsplit ["/" +:+ unsplit dirs; unsplit (pkg :: pkgs);
                     unsplit names])
      with (("/" +:+ unsplit dirs) +:+ "/" +:+ unsplit (pkg :: pkgs)
            +:+ "/" +:+ unsplit names).
    rewrite <- (unsplit_app (pkg :: pkgs) names) by done.
    rewrite rooted_app by done. by rewrite normalize_rooted.
Qed.

(** X15: for a build directory made of names and a package path made of
    names (or none), [getConstants] returns the two internal source
    directories relative to the build directory: the package path followed
    by [.netlify/functions-internal] and by [.netlify/edge-functions]. *)
Theorem getConstants_internal_dirs (cwd : string) (fs : string → access)
    (getCacheDir : option string → string → string) (version : string)
    (o : Options) (dirs pkgs : list string) :
  o.(buildDir) = "/" +:+ unsplit dirs → dirs ≠ [] → Forall plain dirs →
  orEmpty o.(packagePath) = unsplit pkgs → Forall plain pkgs →
  ∃ constantsC,
    getConstants cwd fs getCacheDir version o = Ok constantsC
    ∧ constantsC !! "INTERNAL_FUNCTIONS_SRC"
      = Some (VString (unsplit (pkgs ++ [".netlify"; "functions-internal"])))
    ∧ constantsC !! "INTERNAL_EDGE_FUNCTIONS_SRC"
      = Some (VString (unsplit (pkgs ++ [".netlify"; "edge-functions"]))).
Proof.
  intros Hroot Hd Hdirs Hpkg Hpkgs.
  assert (Hinside : ∀ key names,
            key ∈ CONSTANT_PATHS → names ≠ [] → Forall plain names →
            key ≠ "PUBLISH_DIR" → key ≠ "FUNCTIONS_SRC" →
            key ≠ "EDGE_FUNCTIONS_SRC" →
            baseConstants getCacheDir version o !! key
            = Some (VString (Path.join [o.(buildDir); orEmpty o.(packagePath);
                                        unsplit names])) →
            ∀ constantsC,
              getConstants cwd fs getCacheDir version o = Ok constantsC →
              constantsC !! key = Some (VString (unsplit (pkgs ++ names)))).
  { intros key names Hkey Hn Hnames H1 H2 H3 Hbase constantsC HC.
    destruct (getConstants_field cwd fs getCacheDir version o key _
                H1 H2 H3 Hbase) as (constantsC' & v' & HC' & Hv' & Hlookup).
    rewrite Hroot, Hpkg, join_rooted in Hv' by done.
    rewrite normalizePath_inside in Hv'; [congruence | done | done | |done |].
    - by destruct pkgs.
    - by apply Forall_app_2. }
  destruct (getConstants_field cwd fs getCacheDir version o "IS_LOCAL" _
              ltac:(discriminate) ltac:(discriminate) ltac:(discriminate)
              ltac:(unfold baseConstants; rewrite !list_to_map_cons;
                    by rewrite !lookup_insert_ne, lookup_insert_eq by done))
    as (constantsC & _ & HC & _).
  exists constantsC. split; [exact HC |].
  unfold baseConstants in Hinside. rewrite !list_to_map_cons in Hinside.
  split.
  - apply Hinside; [apply path_key; vm_compute; reflexivity | discriminate
                   | repeat constructor; discriminate | discriminate ..
                   | | exact HC].
    by rewrite !lookup_insert_ne, lookup_insert_eq by done.
  - apply Hinside; [apply path_key; vm_compute; reflexivity | discriminate
                   | repeat constructor; discriminate | discriminate ..
                   | | exact HC].
    by rewrite !lookup_insert_ne, lookup_insert_eq by done.
Qed.

Lemma getConstants_internal_dirs_witness :
  monorepoOptions.(buildDir) = "/" +:+ unsplit ["opt"; "build"; "repo"]
  ∧ Forall plain ["opt"; "build"; "repo"]
  ∧ orEmpty monorepoOptions.(packagePath) = unsplit ["packages"; "site"]
  ∧ Forall plain ["packages"; "site"]
  ∧ ∃ constantsC,
      getConstants "/" nothingAccessible resolveCacheDir "1.0.0"
        monorepoOptions = Ok constantsC
      ∧ constantsC !! "INTERNAL_FUNCTIONS_SRC"
        = Some (VString "packages/site/.netlify/functions-internal")
      ∧ constantsC !! "INTERNAL_EDGE_FUNCTIONS_SRC"
        = Some (VString "packages/site/.netlify/edge-functions").
Proof.
  assert (Hdirs : Forall plain ["opt"; "build"; "repo"])
    by (repeat constructor; discriminate).
  assert (Hpkgs : Forall plain ["packages"; "site"])
    by (repeat constructor; discriminate).
  split; [reflexivity |]. split; [exact Hdirs |]. split; [reflexivity |].
  split; [exact Hpkgs |].
  exact (getConstants_internal_dirs "/" nothingAccessible resolveCacheDir
           "1.0.0" monorepoOptions ["opt"; "build"; "repo"]
           ["packages"; "site"] eq_refl ltac:(discriminate) Hdirs eq_refl
           Hpkgs).
Defined.

(** X16: the record the recomputation returns has the keys of the base
    record and the three overlaid ones, present even when the configuration
    leaves them undefined, and is well-typed again. *)
Theorem recomputation_keys (cwd : string) (fs : string → access)
    (constants : gmap string value) (buildDir : string)
    (netlifyConfig : NetlifyConfig) :
  pathsAreStrings constants →
  ∃ constantsC,
    addMutableConstants cwd fs constants buildDir netlifyConfig
    = Ok constantsC
    ∧ dom constantsC
      = {[ "PUBLISH_DIR"; "FUNCTIONS_SRC"; "EDGE_FUNCTIONS_SRC" ]}
        ∪ dom constants
    ∧ pathsAreStrings constantsC.
Proof.
  intros Htyped. unfold addMutableConstants.
  destruct (normalizeConstantsPaths_total cwd
              (addDefaultConstants fs (overlayConfig constants netlifyConfig)
                 buildDir) buildDir) as (constantsC & HC & _).
  { by apply pathsAreStrings_defaults, pathsAreStrings_overlay. }
  exists constantsC. split; [done |]. split.
  - rewrite (normalizeConstantsPaths_dom cwd _ _ _ HC).
    assert (Hdom : dom (overlayConfig constants netlifyConfig)
                   = {[ "EDGE_FUNCTIONS_SRC" ]} ∪ ({[ "FUNCTIONS_SRC" ]}
                     ∪ ({[ "PUBLISH_DIR" ]} ∪ dom constants)))
      by (unfold overlayConfig; by rewrite !dom_insert_L).
    rewrite addDefaultConstants_dom; rewrite Hdom.
    + apply set_eq. intros key.
      rewrite !elem_of_union, !elem_of_singleton. tauto.
    + rewrite !elem_of_union, !elem_of_singleton. tauto.
    + rewrite !elem_of_union, !elem_of_singleton. tauto.
  - by apply (normalizeConstantsPaths_typed cwd _ _ _ HC).
Qed.

Lemma recomputation_keys_witness :
  pathsAreStrings earlierConstants
  ∧ ∃ constantsC,
      addMutableConstants "/repo" nothingAccessible earlierConstants "/repo"
        emptyConfig = Ok constantsC
      ∧ dom constantsC
        = {[ "PUBLISH_DIR"; "FUNCTIONS_SRC"; "EDGE_FUNCTIONS_SRC" ]}
          ∪ dom earlierConstants
      ∧ pathsAreStrings constantsC.
Proof.
  split; [exact earlierConstants_typed |].
  exact (recomputation_keys "/repo" nothingAccessible earlierConstants "/repo"
           emptyConfig earlierConstants_typed).
Defined.
